(** * qTerminal-Widget: the grid terminal of [main.cpp]

    A shallow embedding of [TerminalWidget] (file [main.cpp]): the cell grid,
    the cursor, the current colour, the escape accumulator [escBuf], and the
    three members that touch them: [handleOutput], [parseEscapeSequence] and
    [resizeEvent].  Around them [readFromPty], [keyPressEvent],
    [mousePressEvent] and [paintEvent] are modelled by what they hand to the
    grid, the pty and the painter; opening the pty, the timers and the font
    are left out.  Of the variant that draws from libvterm [resizeEvent],
    [keyPressEvent] and [qtColorFromVTermColor] are modelled, of the libtmt
    variant [keyPressEvent]; the parsing there is the libraries'. *)

From Stdlib Require Import ZArith Lia Bool.
From Stdlib.Strings Require Import Byte.
From stdpp Require Import base list.

Local Open Scope Z_scope.

(** ** Data *)

(** The Qt global colours the widget uses for [QColor]. *)
Inductive QColor : Type :=
  | black | red | green | yellow | blue | magenta | cyan | white.

(** [QChar] is a 16-bit code unit; [QChar(uchar)] is the Latin-1 character
    of that value. *)
Definition QChar : Type := N.

(** [uchar byte = data[i]]: the value of a byte as an unsigned number. *)
Definition uchar (b : byte) : Z := Z.of_N (Byte.to_N b).

Definition QChar_of_uchar (b : byte) : QChar := Byte.to_N b.

(** [struct Cell { QChar ch; QColor color; }] *)
Record Cell : Type := mkCell { ch : QChar; color : QColor }.

(** [Cell() : ch(' '), color(Qt::white)] *)
Definition defaultCell : Cell := mkCell 32%N white.

(** Two things that [parseEscapeSequence] leaves to the platform.

    What [\d] stands for in the literal ["\\x1B\\[(\d+)(;(\d+))*m"]: the
    backslash before [d] is single, so the C++ compiler sees an escape it
    does not know; the usual compilers warn and keep the letter [d], while
    the pattern that was meant has the digit class.

    How [regex.match(seq)] turns the [QByteArray] into the [QString] it
    searches: Qt 5 converts the bytes before the first zero byte, Qt 6
    converts them all.

    The model takes both as a parameter, and every result below holds on
    every platform. *)
Inductive BackslashD : Type :=
  | PcreDigit   (* the regex receives [\d]: an ASCII digit *)
  | LetterD.    (* the regex receives [d]: the letter itself *)

Inductive QtMajor : Type := Qt5 | Qt6.

Record Platform : Type := mkPlatform {
  backslashD : BackslashD;
  qtMajor : QtMajor
}.

(** The platform on which the pattern reads as it was meant. *)
Definition intended : Platform := mkPlatform PcreDigit Qt6.

(** The members of [TerminalWidget] that the output path reads or writes.
    [escBuf] is the function-local [static QByteArray] of [handleOutput]. *)
Record TerminalWidget : Type := mkTerminal {
  screen : list (list Cell);
  rows : Z;
  cols : Z;
  cursorX : Z;
  cursorY : Z;
  charWidth : Z;
  charHeight : Z;
  currentColor : QColor;
  escBuf : list byte
}.

Definition TERM_ROWS : Z := 24.
Definition TERM_COLS : Z := 80.

(** The widget once its constructor has run: the member initialisers,
    with the two font metrics that [initFont] measures, [cw] for
    [charWidth] and [ch] for [charHeight]. *)
Definition constructed (cw ch : Z) : TerminalWidget :=
  {| screen := replicate (Z.to_nat TERM_ROWS) (replicate (Z.to_nat TERM_COLS) defaultCell);
     rows := TERM_ROWS;
     cols := TERM_COLS;
     cursorX := 0;
     cursorY := 0;
     charWidth := cw;
     charHeight := ch;
     currentColor := white;
     escBuf := [] |}.

(** The metrics of the member initialisers, [charWidth = 10] and
    [charHeight = 18], which [main] also takes for the size of the window
    ([TERM_COLS * 10] by [TERM_ROWS * 18]). *)
Definition initial : TerminalWidget := constructed 10 18.

Definition set_screen (v : list (list Cell)) (s : TerminalWidget) : TerminalWidget :=
  {| screen := v; rows := rows s; cols := cols s; cursorX := cursorX s;
     cursorY := cursorY s; charWidth := charWidth s; charHeight := charHeight s;
     currentColor := currentColor s; escBuf := escBuf s |}.

Definition set_cursor (x y : Z) (s : TerminalWidget) : TerminalWidget :=
  {| screen := screen s; rows := rows s; cols := cols s; cursorX := x;
     cursorY := y; charWidth := charWidth s; charHeight := charHeight s;
     currentColor := currentColor s; escBuf := escBuf s |}.

Definition set_currentColor (c : QColor) (s : TerminalWidget) : TerminalWidget :=
  {| screen := screen s; rows := rows s; cols := cols s; cursorX := cursorX s;
     cursorY := cursorY s; charWidth := charWidth s; charHeight := charHeight s;
     currentColor := c; escBuf := escBuf s |}.

Definition set_escBuf (b : list byte) (s : TerminalWidget) : TerminalWidget :=
  {| screen := screen s; rows := rows s; cols := cols s; cursorX := cursorX s;
     cursorY := cursorY s; charWidth := charWidth s; charHeight := charHeight s;
     currentColor := currentColor s; escBuf := b |}.

(** ** Faults

    The three operations below are undefined in C++ and Qt when their
    operands are out of range: [screen[y][x]] on a [QVector] has no bounds
    check of its own, an [int] division by zero has no result, and
    [QVector::resize] needs a size that is not negative.  The model gives
    each a result of its own instead of hiding it. *)
Inductive Fault : Type :=
  | IndexOutOfRange
  | DivisionByZero
  | NegativeSize.

Inductive Result (A : Type) : Type :=
  | Ok (a : A)
  | Failed (f : Fault).
Arguments Ok {A} a.
Arguments Failed {A} f.

Definition bind {A B : Type} (r : Result A) (k : A -> Result B) : Result B :=
  match r with
  | Ok a => k a
  | Failed f => Failed f
  end.

Notation "'let!' x ':=' r 'in' k" := (bind r (fun x => k))
  (at level 10, x name, r at level 100, k at level 200).

(** [screen[y][x] = c] *)
Definition assignCell (y x : Z) (c : Cell) (scr : list (list Cell))
  : Result (list (list Cell)) :=
  if (0 <=? y) && (0 <=? x) then
    match scr !! Z.to_nat y with
    | Some row =>
        if (Z.to_nat x <? length row)%nat
        then Ok (<[Z.to_nat y := <[Z.to_nat x := c]> row]> scr)
        else Failed IndexOutOfRange
    | None => Failed IndexOutOfRange
    end
  else Failed IndexOutOfRange.

(** [qMin(a, b)] is [(a < b) ? a : b]. *)
Definition qMin (a b : Z) : Z := if a <? b then a else b.

(** ** Bytes of the protocol *)

Definition ESC : byte := x1b.
Definition LBRACKET : byte := x5b.   (* '[' *)
Definition SEMI : byte := x3b.       (* ';' *)
Definition LOWER_M : byte := x6d.    (* 'm' *)
Definition LOWER_D : byte := x64.    (* 'd' *)
Definition NEWLINE : byte := x0a.    (* '\n' *)

(** [byte >= '@' && byte <= '~'] *)
Definition isFinal (b : byte) : bool := (64 <=? uchar b) && (uchar b <=? 126).

Definition isDigit (b : byte) : bool := (48 <=? uchar b) && (uchar b <=? 57).

Section Widget.

(** The platform, fixed for the whole program. *)
Variable pf : Platform.

(** ** The regular expression of [parseEscapeSequence] *)

Definition classD (b : byte) : bool :=
  match backslashD pf with
  | PcreDigit => isDigit b
  | LetterD => Byte.eqb b LOWER_D
  end.

(** The longest run of class bytes at the head of [l], and what follows:
    the greedy [(\d+)]. *)
Fixpoint spanD (l : list byte) : list byte * list byte :=
  match l with
  | [] => ([], [])
  | b :: t =>
      if classD b
      then let (d, r) := spanD t in (b :: d, r)
      else ([], l)
  end.

(** [(;(\d+))*m], read left to right.  The class, [;] and [m] are pairwise
    disjoint, so backtracking never finds a match that this scan misses.
    [afterSemi] holds when a [;] has just been read and a class byte must
    follow. *)
Fixpoint paramsTail (afterSemi : bool) (l : list byte) : bool :=
  match l with
  | [] => false
  | b :: t =>
      if afterSemi then classD b && paramsTail false t
      else if Byte.eqb b LOWER_M then true
      else if Byte.eqb b SEMI then paramsTail true t
      else classD b && paramsTail false t
  end.

(** A match of the whole pattern starting at the head of [l]; the result
    is [captured(1)]. *)
Definition matchHere (l : list byte) : option (list byte) :=
  match l with
  | b0 :: b1 :: rest =>
      if Byte.eqb b0 ESC && Byte.eqb b1 LBRACKET then
        match spanD rest with
        | ([], _) => None
        | (d, r) => if paramsTail false r then Some d else None
        end
      else None
  | _ => None
  end.

(** The search of [regex.match]: the pattern is not anchored, the first
    position with a match wins. *)
Fixpoint regexMatch (l : list byte) : option (list byte) :=
  match matchHere l with
  | Some c => Some c
  | None =>
      match l with
      | [] => None
      | _ :: t => regexMatch t
      end
  end.

(** The implicit [QString(seq)] of [regex.match(seq)].  The conversion
    decodes UTF-8: it keeps every ASCII byte as it is and turns all other
    bytes into characters outside ASCII.  The pattern has ASCII characters
    only, so the search can run on the bytes themselves.  Qt 5 converts
    the bytes before the first zero byte only. *)
Fixpoint untilZero (l : list byte) : list byte :=
  match l with
  | [] => []
  | b :: t => if Byte.eqb b x00 then [] else b :: untilZero t
  end.

Definition toQString (seq : list byte) : list byte :=
  match qtMajor pf with
  | Qt5 => untilZero seq
  | Qt6 => seq
  end.

(** [QString::toInt()]: the decimal value, or 0 when the text is not a
    number or does not fit an [int]. *)
Fixpoint decimalValue (acc : Z) (l : list byte) : option Z :=
  match l with
  | [] => Some acc
  | b :: t =>
      if isDigit b then decimalValue (10 * acc + (uchar b - 48)) t else None
  end.

Definition toInt (l : list byte) : Z :=
  match l with
  | [] => 0
  | _ =>
      match decimalValue 0 l with
      | Some v => if v <=? 2147483647 then v else 0
      | None => 0
      end
  end.

(** [seq.startsWith("\x1B[")] *)
Definition startsWithCsi (seq : list byte) : bool :=
  match seq with
  | b0 :: b1 :: _ => Byte.eqb b0 ESC && Byte.eqb b1 LBRACKET
  | _ => false
  end.

(** ** [parseEscapeSequence] *)
Definition parseEscapeSequence (seq : list byte) (s : TerminalWidget) : TerminalWidget :=
  if startsWithCsi seq then
    match regexMatch (toQString seq) with
    | Some cap =>
        match toInt cap with
        | 30 => set_currentColor black s
        | 31 => set_currentColor red s
        | 32 => set_currentColor green s
        | 33 => set_currentColor yellow s
        | 34 => set_currentColor blue s
        | 35 => set_currentColor magenta s
        | 36 => set_currentColor cyan s
        | 37 => set_currentColor white s
        | _ => s
        end
    | None => s
    end
  else s.

(** ** [handleOutput] *)

(** The cursor step shared by the newline and by the wrap at the right
    edge: [cursorX = 0; cursorY = qMin(cursorY + 1, rows - 1)]. *)
Definition nextLine (s : TerminalWidget) : TerminalWidget :=
  set_cursor 0 (qMin (cursorY s + 1) (rows s - 1)) s.

(** One turn of the [while] loop, for the byte [data[i]].  The [int]
    members are integers here; [handleByte_fitsInt] below shows that the
    sums and differences of the loop stay inside the range of [int]. *)
Definition handleByte (s : TerminalWidget) (b : byte) : Result TerminalWidget :=
  if negb (match escBuf s with [] => true | _ => false end) || Byte.eqb b ESC then
    let s1 := set_escBuf (escBuf s ++ [b]) s in
    if isFinal b
    then Ok (set_escBuf [] (parseEscapeSequence (escBuf s1) s1))
    else Ok s1
  else if Byte.eqb b NEWLINE then
    Ok (nextLine s)
  else
    let! s1 :=
      (if (cursorY s <? rows s) && (cursorX s <? cols s)
       then let! scr := assignCell (cursorY s) (cursorX s)
                          (mkCell (QChar_of_uchar b) (currentColor s)) (screen s) in
            Ok (set_screen scr s)
       else Ok s) in
    let s2 := set_cursor (cursorX s1 + 1) (cursorY s1) s1 in
    if cols s2 <=? cursorX s2 then Ok (nextLine s2) else Ok s2.

(** The loop over [data], from [i = 0] to [data.size()]. *)
Fixpoint handleOutput (s : TerminalWidget) (data : list byte) : Result TerminalWidget :=
  match data with
  | [] => Ok s
  | b :: rest => let! s' := handleByte s b in handleOutput s' rest
  end.

End Widget.

(** ** [resizeEvent]

    [width] and [height] are [width()] and [height()], the new size of the
    widget in pixels.  The division is the one of C++, which truncates.
    The [ioctl] and the signal to the child do not touch the widget. *)
Definition resizeEvent (width height : Z) (s : TerminalWidget) : Result TerminalWidget :=
  if (charWidth s =? 0) || (charHeight s =? 0) then Failed DivisionByZero
  else
    let cols' := Z.quot width (charWidth s) in
    let rows' := Z.quot height (charHeight s) in
    if (rows' <? 0) || (cols' <? 0) then Failed NegativeSize
    else
      Ok {| screen := resize (Z.to_nat cols') defaultCell
                        <$> resize (Z.to_nat rows') [] (screen s);
            rows := rows';
            cols := cols';
            cursorX := cursorX s;
            cursorY := cursorY s;
            charWidth := charWidth s;
            charHeight := charHeight s;
            currentColor := currentColor s;
            escBuf := escBuf s |}.

(** ** [readFromPty]

    [n] is what [read(masterFd, buf, sizeof(buf))] returned and [buf] the
    buffer after the call; both are the operating system's.
    [QByteArray::fromRawData(buf, n)] is the first [n] bytes. *)
Definition readFromPty (pf : Platform) (masterFd n : Z) (buf : list byte)
    (s : TerminalWidget) : Result TerminalWidget :=
  if masterFd <? 0 then Ok s
  else if 0 <? n then handleOutput pf s (take (Z.to_nat n) buf)
  else Ok s.

(** The timer calls [readFromPty] every 10 ms: one call per entry of
    [reads], each entry the [n] and the [buf] of that call. *)
Fixpoint poll (pf : Platform) (masterFd : Z) (reads : list (Z * list byte))
    (s : TerminalWidget) : Result TerminalWidget :=
  match reads with
  | [] => Ok s
  | (n, buf) :: rest =>
      let! s' := readFromPty pf masterFd n buf s in poll pf masterFd rest s'
  end.

(** The bytes that the calls of [reads] took from the pty, in order: a
    call that returned [n <= 0] took none. *)
Fixpoint bytesRead (reads : list (Z * list byte)) : list byte :=
  match reads with
  | [] => []
  | (n, buf) :: rest =>
      (if 0 <? n then take (Z.to_nat n) buf else []) ++ bytesRead rest
  end.

(** ** Keys and mouse *)

(** The conversion of an [int] to [char]: the low eight bits. *)
Definition charOfInt (z : Z) : byte :=
  match Byte.of_N (Z.to_N (z mod 256)) with
  | Some b => b
  | None => x00
  end.

(** The values of [Qt::Key] that the widgets name. *)
Module Qt.
Definition Key_Escape : Z := 16777216.     (* 0x01000000 *)
Definition Key_Tab : Z := 16777217.
Definition Key_Backspace : Z := 16777219.
Definition Key_Return : Z := 16777220.
Definition Key_Enter : Z := 16777221.
Definition Key_Delete : Z := 16777223.
Definition Key_Home : Z := 16777232.       (* 0x01000010 *)
Definition Key_End : Z := 16777233.
Definition Key_Left : Z := 16777234.
Definition Key_Up : Z := 16777235.
Definition Key_Right : Z := 16777236.
Definition Key_Down : Z := 16777237.
Definition Key_PageUp : Z := 16777238.
Definition Key_PageDown : Z := 16777239.
Definition Key_A : Z := 65.                (* 0x41 *)
Definition Key_Z : Z := 90.                (* 0x5a *)
End Qt.

(** What the widgets read of a [QKeyEvent]: [key()], whether
    [modifiers()] has [Qt::ControlModifier], and [text().toUtf8()]. *)
Record QKeyEvent : Type := mkKeyEvent {
  key : Z;
  controlModifier : bool;
  text : list byte
}.

(** [keyPressEvent] of [main.cpp], up to the test before [write]: the
    bytes in [input]. *)
Definition keyInput (e : QKeyEvent) : list byte :=
  if controlModifier e && (Qt.Key_A <=? key e) && (key e <=? Qt.Key_Z) then
    [charOfInt (key e - Qt.Key_A + 1)]
  else if key e =? Qt.Key_Backspace then [x7f]
  else if key e =? Qt.Key_Delete then [ESC; "["; "3"; "~"]%byte
  else if (key e =? Qt.Key_Return) || (key e =? Qt.Key_Enter) then [x0d]
  else if key e =? Qt.Key_Tab then [x09]
  else if key e =? Qt.Key_Escape then [ESC]
  else if key e =? Qt.Key_Left then [ESC; "["; "D"]%byte
  else if key e =? Qt.Key_Right then [ESC; "["; "C"]%byte
  else if key e =? Qt.Key_Up then [ESC; "["; "A"]%byte
  else if key e =? Qt.Key_Down then [ESC; "["; "B"]%byte
  else text e.

(** [keyPressEvent]: the bytes handed to [write], if any. *)
Definition keyPressEvent (masterFd : Z) (e : QKeyEvent) : option (list byte) :=
  let input := keyInput e in
  if negb (match input with [] => true | _ => false end) && (0 <=? masterFd)
  then Some input
  else None.

(** [mousePressEvent]: [ex] and [ey] are [event->x()] and [event->y()].
    The result is the bytes handed to [write], if any. *)
Definition mousePressEvent (masterFd ex ey : Z) (s : TerminalWidget)
  : Result (option (list byte)) :=
  if charWidth s =? 0 then Failed DivisionByZero
  else
    let x := Z.quot ex (charWidth s) in
    if charHeight s =? 0 then Failed DivisionByZero
    else
      let y := Z.quot ey (charHeight s) in
      let seq := [ESC; "["; "M"]%byte
                 ++ [charOfInt (32 + 0); charOfInt (32 + x); charOfInt (32 + y)] in
      Ok (if 0 <=? masterFd then Some seq else None).

(** ** [paintEvent] *)

(** What [paintEvent] asks of the [QPainter]. *)
Inductive PaintOp : Type :=
  | FillRect (x y w h : Z) (c : QColor)
  | SetPen (c : QColor)
  | DrawText (x y : Z) (c : QChar).

(** [screen[y][x]], read. *)
Definition cellRef (y x : Z) (scr : list (list Cell)) : Result Cell :=
  if (0 <=? y) && (0 <=? x) then
    match scr !! Z.to_nat y with
    | Some row =>
        match row !! Z.to_nat x with
        | Some c => Ok c
        | None => Failed IndexOutOfRange
        end
    | None => Failed IndexOutOfRange
    end
  else Failed IndexOutOfRange.

(** [for (int i = from; ...; ++i) body], for [n] turns. *)
Fixpoint forLoop (i : Z) (n : nat) (body : Z -> Result (list PaintOp))
  : Result (list PaintOp) :=
  match n with
  | O => Ok []
  | S n' =>
      let! ops := body i in
      let! rest := forLoop (i + 1) n' body in
      Ok (ops ++ rest)
  end.

(** The body of the two loops: one cell. *)
Definition paintCell (baseline : Z) (s : TerminalWidget) (y x : Z)
  : Result (list PaintOp) :=
  let! cell := cellRef y x (screen s) in
  if (ch cell =? 0)%N then Ok []
  else Ok [SetPen (color cell);
           DrawText (x * charWidth s) ((y + 1) * charHeight s - baseline) (ch cell)].

(** The block under [if (cursorVisible)]. *)
Definition paintCursor (baseline : Z) (s : TerminalWidget) : Result (list PaintOp) :=
  let! under :=
    (if (cursorY s <? rows s) && (cursorX s <? cols s)
     then let! cell := cellRef (cursorY s) (cursorX s) (screen s) in
          Ok [SetPen black;
              DrawText (cursorX s * charWidth s)
                ((cursorY s + 1) * charHeight s - baseline) (ch cell)]
     else Ok []) in
  Ok ([SetPen white;
       FillRect (cursorX s * charWidth s) (cursorY s * charHeight s)
         (charWidth s) (charHeight s) white] ++ under).

(** [width] and [height] give [rect()]; [baseline] and [cursorVisible]
    are the two members that only the painting reads. *)
Definition paintEvent (width height baseline : Z) (cursorVisible : bool)
    (s : TerminalWidget) : Result (list PaintOp) :=
  let! cells :=
    forLoop 0 (Z.to_nat (rows s))
      (fun y => forLoop 0 (Z.to_nat (cols s)) (fun x => paintCell baseline s y x)) in
  let! cursor := (if cursorVisible then paintCursor baseline s else Ok []) in
  Ok (FillRect 0 0 width height black :: cells ++ cursor).

(** ** [resizeEvent] of the libvterm variant

    The variant that draws from libvterm computes the new size and does
    nothing with it: the body of its [if] holds comments only. *)
Module LibVTerm.

Record TerminalWidget : Type := mkTerminal {
  cursorX : Z;
  cursorY : Z;
  charWidth : Z;
  charHeight : Z
}.

Definition resizeEvent (width height : Z) (s : TerminalWidget) : Result TerminalWidget :=
  if (charWidth s =? 0) || (charHeight s =? 0) then Failed DivisionByZero
  else
    let newCols := Z.quot width (charWidth s) in
    let newRows := Z.quot height (charHeight s) in
    if negb (newCols =? TERM_COLS) || negb (newRows =? TERM_ROWS)
    then Ok s
    else Ok s.


(** [keyPressEvent] of the variant, up to the test before [write].
    [char c = event->key()] keeps the low eight bits of the key. *)
Definition keyInput (e : QKeyEvent) : list byte :=
  if key e =? Qt.Key_Backspace then [x7f]
  else if key e =? Qt.Key_Return then [x0d]
  else if key e =? Qt.Key_Left then [ESC; "["; "D"]%byte
  else if key e =? Qt.Key_Right then [ESC; "["; "C"]%byte
  else if key e =? Qt.Key_Up then [ESC; "["; "A"]%byte
  else if key e =? Qt.Key_Down then [ESC; "["; "B"]%byte
  else if key e =? Qt.Key_Delete then [ESC; "["; "3"; "~"]%byte
  else if key e =? Qt.Key_Home then [ESC; "["; "H"]%byte
  else if key e =? Qt.Key_End then [ESC; "["; "F"]%byte
  else if key e =? Qt.Key_PageUp then [ESC; "["; "5"; "~"]%byte
  else if key e =? Qt.Key_PageDown then [ESC; "["; "6"; "~"]%byte
  else if controlModifier e then
    let c := key e mod 256 in
    if (64 <=? c) && (c <=? 95) then [charOfInt (c - 64)] else []
  else text e.

Definition keyPressEvent (masterFd : Z) (e : QKeyEvent) : option (list byte) :=
  let input := keyInput e in
  if negb (match input with [] => true | _ => false end) && (0 <=? masterFd)
  then Some input
  else None.

(** A [QColor] of this variant: one of Qt's global colours, or
    [QColor(r, g, b)]. *)
Inductive Colour : Type :=
  | Global (g : QColor)
  | Rgb (r g b : Z).

(** The red, green and blue of a colour; those of the global colours are
    Qt's. *)
Definition rgbOf (c : Colour) : Z * Z * Z :=
  match c with
  | Global black => (0, 0, 0)
  | Global red => (255, 0, 0)
  | Global green => (0, 255, 0)
  | Global yellow => (255, 255, 0)
  | Global blue => (0, 0, 255)
  | Global magenta => (255, 0, 255)
  | Global cyan => (0, 255, 255)
  | Global white => (255, 255, 255)
  | Rgb r g b => (r, g, b)
  end.

(** The fields of a [VTermColor] that the widget reads. *)
Record VTermColor : Type := mkVTermColor {
  type : Z;
  rgb_red : Z;
  rgb_green : Z;
  rgb_blue : Z;
  index : Z
}.

(** [static const QColor colors[16]] *)
Definition colors : list Colour :=
  [Global black; Global red; Global green; Global yellow;
   Global blue; Global magenta; Global cyan; Global white;
   Rgb 128 128 128; Rgb 255 0 0; Rgb 0 255 0; Rgb 255 255 0;
   Rgb 0 0 255; Rgb 255 0 255; Rgb 0 255 255; Rgb 255 255 255].

Section Colours.

(** The three type tags are the library's; the widget only compares
    with them. *)
Variables VTERM_COLOR_RGB VTERM_COLOR_DEFAULT VTERM_COLOR_INDEX : Z.

Definition qtColorFromVTermColor (c : VTermColor) : Colour :=
  if type c =? VTERM_COLOR_RGB then Rgb (rgb_red c) (rgb_green c) (rgb_blue c)
  else if type c =? VTERM_COLOR_DEFAULT then Global white
  else if type c =? VTERM_COLOR_INDEX then
    let idx := index c in
    let idx := if (idx <? 0) || (15 <? idx) then 7 else idx in
    nth (Z.to_nat idx) colors (Global white)
  else Global white.

End Colours.

End LibVTerm.

(** ** [keyPressEvent] of the libtmt variant *)
Module TMT.

Definition keyInput (e : QKeyEvent) : list byte :=
  if key e =? Qt.Key_Backspace then [x7f]
  else if key e =? Qt.Key_Return then [x0d]
  else if key e =? Qt.Key_Left then [ESC; "["; "D"]%byte
  else if key e =? Qt.Key_Right then [ESC; "["; "C"]%byte
  else if key e =? Qt.Key_Up then [ESC; "["; "A"]%byte
  else if key e =? Qt.Key_Down then [ESC; "["; "B"]%byte
  else text e.

(** This variant does not test [masterFd] before [write]. *)
Definition keyPressEvent (e : QKeyEvent) : option (list byte) :=
  let input := keyInput e in
  if negb (match input with [] => true | _ => false end)
  then Some input
  else None.

End TMT.

(** ** The pattern, as a language

    What the pattern [\x1B\[(\d+)(;(\d+))*m] accepts, written without a
    scan: [moreParams] is the language of [(;(\d+))*] and [patternAt l cap]
    says that a match starts at the head of [l] with [cap] as group 1. *)
Inductive moreParams (pf : Platform) : list byte -> Prop :=
  | moreParams_nil : moreParams pf []
  | moreParams_cons d rest :
      d <> [] ->
      Forall (fun b => classD pf b = true) d ->
      moreParams pf rest ->
      moreParams pf (SEMI :: d ++ rest).

Definition patternAt (pf : Platform) (l cap : list byte) : Prop :=
  exists ps rest,
    l = ESC :: LBRACKET :: cap ++ ps ++ LOWER_M :: rest
    /\ cap <> []
    /\ Forall (fun b => classD pf b = true) cap
    /\ moreParams pf ps.

(** ** Predicates on the widget *)

(** The grid has [rows] rows of [cols] cells each, as the initialiser and
    [resizeEvent] leave it. *)
Definition shaped (s : TerminalWidget) : Prop :=
  length (screen s) = Z.to_nat (rows s)
  /\ Forall (fun r => length r = Z.to_nat (cols s)) (screen s)
  /\ 0 <= rows s /\ 0 <= cols s.

Definition cursorInGrid (s : TerminalWidget) : Prop :=
  (0 <= cursorX s < cols s) /\ (0 <= cursorY s < rows s).

(** The accumulator between two bytes: empty (ground), or an ESC followed
    by bytes of which none is in ['@'..'~']. *)
Definition pendingEscape (buf : list byte) : Prop :=
  buf = [] \/ exists body, buf = ESC :: body /\ Forall (fun b => isFinal b = false) body.

(** The cell in row [y], column [x]. *)
Definition cellAt (s : TerminalWidget) (y x : nat) : option Cell :=
  match screen s !! y with
  | Some row => row !! x
  | None => None
  end.

(** A printable glyph of the spec: a byte of value 0x20 or more. *)
Definition printable (b : byte) : bool := 32 <=? uchar b.

(** The cell that [handleOutput] stores for a byte. *)
Definition glyph (c : QColor) (b : byte) : Cell := mkCell (QChar_of_uchar b) c.

(** The widget after the cells of [row'] replaced row [cursorY] and the
    cursor moved to column [x'] of the same row. *)
Definition printed (s : TerminalWidget) (x' : Z) (row' : list Cell) : TerminalWidget :=
  set_cursor x' (cursorY s)
    (set_screen (<[Z.to_nat (cursorY s) := row']> (screen s)) s).

Definition INT_MAX : Z := 2147483647.

(** The members from which [cursorX + 1], [cursorY + 1] and [rows - 1] can
    be formed in an [int]. *)
Definition fitsInt (s : TerminalWidget) : Prop :=
  (-1 <= cursorX s < INT_MAX) /\ (-1 <= cursorY s < INT_MAX)
  /\ (0 <= rows s <= INT_MAX) /\ (0 <= cols s <= INT_MAX).

(** What a call left behind, seen through [f]; nothing after a fault. *)
Definition observe {A : Type} (f : TerminalWidget -> A) (r : Result TerminalWidget)
  : option A :=
  match r with
  | Ok s => Some (f s)
  | Failed _ => None
  end.

(** ** The life of a widget

    What reaches the widget after its constructor: output of the child,
    read from the pty and passed to [handleOutput], and resize events of
    the window, whose size Qt reports as two numbers that are not
    negative. *)
Inductive Event : Type :=
  | Output (data : list byte)
  | Resize (width height : Z).

Definition wellFormed (e : Event) : Prop :=
  match e with
  | Output _ => True
  | Resize width height => 0 <= width /\ 0 <= height
  end.

Definition step (pf : Platform) (s : TerminalWidget) (e : Event) : Result TerminalWidget :=
  match e with
  | Output data => handleOutput pf s data
  | Resize width height => resizeEvent width height s
  end.

(** The widgets that a run of events can produce from the constructed
    one, with font metrics [cw] and [ch]. *)
Inductive reachable (pf : Platform) (cw ch : Z) : TerminalWidget -> Prop :=
  | reachable_constructed : reachable pf cw ch (constructed cw ch)
  | reachable_step s e s' :
      reachable pf cw ch s -> wellFormed e -> step pf s e = Ok s' ->
      reachable pf cw ch s'.

(** What every reachable widget satisfies.  The row of the cursor can be
    -1: a line feed in a grid without rows puts it there. *)
Definition sound (s : TerminalWidget) : Prop :=
  shaped s /\ 0 <= cursorX s /\ -1 <= cursorY s.

(** The widget after a resize to 800 by 10 pixels, less than one text
    line high, and then a line feed. *)
Definition noRows : TerminalWidget :=
  {| screen := []; rows := 0; cols := 80; cursorX := 0; cursorY := 0;
     charWidth := 10; charHeight := 18; currentColor := white; escBuf := [] |}.

Definition aboveTheGrid : TerminalWidget := set_cursor 0 (-1) noRows.

(** A grid of one row and two columns with an H in its first cell, as a
    resize to 20 by 18 pixels and the byte H leave it. *)
Definition oneRow : TerminalWidget :=
  {| screen := [[glyph white "H"%byte; defaultCell]]; rows := 1; cols := 2;
     cursorX := 1; cursorY := 0; charWidth := 10; charHeight := 18;
     currentColor := white; escBuf := [] |}.

(** ** Byte sequences used below *)

(** ESC [ 3 1 m H I CR LF *)
Definition red_HI_crlf : list byte :=
  [ESC; "["; "3"; "1"; "m"; "H"; "I"; x0d; NEWLINE]%byte.

(** ESC [ 2 J *)
Definition erase_display_all : list byte := [ESC; "["; "2"; "J"]%byte.

(** ESC [ 0 m *)
Definition sgr_reset : list byte := [ESC; "["; "0"; "m"]%byte.

(** ESC [ 3 1 m *)
Definition sgr_red : list byte := [ESC; "["; "3"; "1"; "m"]%byte.

(** Twenty-three line feeds and eighty letters: the letters fill the last
    row of the 24 by 80 grid and the wrap leaves the cursor on its first
    cell. *)
Definition fill_last_row : list byte :=
  replicate 23 NEWLINE ++ replicate 80 "A"%byte.

(** Twenty line feeds and seventy letters: the cursor ends in row 20,
    column 70. *)
Definition walk_to_20_70 : list byte :=
  replicate 20 NEWLINE ++ replicate 70 "A"%byte.

(** ** Chunks *)

(** The loop over [a ++ b] is the loop over [a] followed by the loop over
    [b] from the widget that [a] left, [escBuf] included. *)
Lemma handleOutput_app (pf : Platform) (a b : list byte) : forall s,
  handleOutput pf s (a ++ b)
  = let! s' := handleOutput pf s a in handleOutput pf s' b.
Proof.
  induction a as [|x a IH]; intros s; cbn [app handleOutput bind].
  - reflexivity.
  - destruct (handleByte pf s x) as [s1|f]; cbn [bind]; [apply IH | reflexivity].
Qed.

(** C2. For every byte sequence [data] and every split point [n], one
    call with all of [data] gives the same widget (grid, cursor, colour
    and accumulator), or the same fault, as a call with the first [n]
    bytes followed by a call with the rest. *)
Theorem handleOutput_chunks (pf : Platform) (s : TerminalWidget) (data : list byte) (n : nat) :
  handleOutput pf s data
  = let! s' := handleOutput pf s (take n data) in handleOutput pf s' (drop n data).
Proof. by rewrite <- handleOutput_app, take_drop. Qed.

(** ** What a dispatch may change *)

Lemma parseEscapeSequence_cases pf seq s :
  parseEscapeSequence pf seq s = s
  \/ exists c, parseEscapeSequence pf seq s = set_currentColor c s.
Proof.
  unfold parseEscapeSequence.
  destruct (startsWithCsi seq); [|by left].
  destruct (regexMatch pf (toQString pf seq)) as [cap|]; [|by left].
  repeat match goal with
         | |- context [match ?x with _ => _ end] => destruct x
         end;
    first [by left | right; eexists; reflexivity].
Qed.

Lemma parseEscapeSequence_frame pf seq s :
  screen (parseEscapeSequence pf seq s) = screen s
  /\ rows (parseEscapeSequence pf seq s) = rows s
  /\ cols (parseEscapeSequence pf seq s) = cols s
  /\ cursorX (parseEscapeSequence pf seq s) = cursorX s
  /\ cursorY (parseEscapeSequence pf seq s) = cursorY s
  /\ escBuf (parseEscapeSequence pf seq s) = escBuf s.
Proof.
  destruct (parseEscapeSequence_cases pf seq s) as [-> | [c ->]]; by repeat split.
Qed.

(** No match without an [m]: the pattern ends in that letter. *)
Lemma paramsTail_m pf st l : paramsTail pf st l = true -> In LOWER_M l.
Proof.
  revert st. induction l as [|b t IH]; intros st; simpl; [discriminate|].
  destruct st.
  - intros [_ H]%andb_prop. right. eauto.
  - destruct (Byte.eqb b LOWER_M) eqn:Em.
    + intros _. left. symmetry. by apply Byte.byte_dec_bl.
    + destruct (Byte.eqb b SEMI).
      * intros H. right. eauto.
      * intros [_ H]%andb_prop. right. eauto.
Qed.

Lemma spanD_rest pf l d r : spanD pf l = (d, r) -> forall b, In b r -> In b l.
Proof.
  revert d r. induction l as [|x t IH]; intros d r; simpl.
  - intros [= <- <-] b [].
  - destruct (classD pf x).
    + destruct (spanD pf t) as [d' r'] eqn:E. intros [= <- <-] b Hb.
      right. eapply IH; eauto.
    + intros [= <- <-] b Hb. exact Hb.
Qed.

Lemma matchHere_m pf l c : matchHere pf l = Some c -> In LOWER_M l.
Proof.
  destruct l as [|b0 [|b1 rest]]; simpl; try discriminate.
  destruct (Byte.eqb b0 ESC && Byte.eqb b1 LBRACKET); [|discriminate].
  destruct (spanD pf rest) as [d r] eqn:E.
  destruct d as [|d0 d]; [discriminate|].
  destruct (paramsTail pf false r) eqn:T; [|discriminate].
  intros _. right. right. eapply spanD_rest; eauto using paramsTail_m.
Qed.

Lemma regexMatch_m pf l c : regexMatch pf l = Some c -> In LOWER_M l.
Proof.
  induction l as [|b t IH].
  - simpl. discriminate.
  - cbn [regexMatch]. destruct (matchHere pf (b :: t)) eqn:E.
    + intros _. eapply matchHere_m; eauto.
    + intros H. right. auto.
Qed.

Lemma untilZero_In l b : In b (untilZero l) -> In b l.
Proof.
  induction l as [|x t IH]; cbn [untilZero]; [done|].
  destruct (Byte.eqb x x00); [intros []|].
  intros [-> | H]; [by left | right; auto].
Qed.

Lemma toQString_In pf seq b : In b (toQString pf seq) -> In b seq.
Proof. unfold toQString. destruct (qtMajor pf); [apply untilZero_In | done]. Qed.

Lemma parseEscapeSequence_no_m pf seq s :
  ~ In LOWER_M seq -> parseEscapeSequence pf seq s = s.
Proof.
  intros Hm. unfold parseEscapeSequence.
  destruct (startsWithCsi seq); [|reflexivity].
  destruct (regexMatch pf (toQString pf seq)) as [cap|] eqn:E; [|reflexivity].
  exfalso. eauto using regexMatch_m, toQString_In.
Qed.

(** ** The scan accepts the language of the pattern *)

Lemma classD_not_m pf b : classD pf b = true -> Byte.eqb b LOWER_M = false.
Proof.
  intros H. destruct (Byte.eqb b LOWER_M) eqn:E; [|reflexivity].
  apply Byte.byte_dec_bl in E. subst b. by destruct pf as [[] ?].
Qed.

Lemma classD_not_semi pf b : classD pf b = true -> Byte.eqb b SEMI = false.
Proof.
  intros H. destruct (Byte.eqb b SEMI) eqn:E; [|reflexivity].
  apply Byte.byte_dec_bl in E. subst b. by destruct pf as [[] ?].
Qed.

Lemma spanD_spec pf l d r :
  spanD pf l = (d, r) ->
  l = d ++ r
  /\ Forall (fun b => classD pf b = true) d
  /\ match r with [] => True | b :: _ => classD pf b = false end.
Proof.
  revert d r. induction l as [|x t IH]; intros d r; cbn [spanD].
  - intros [= <- <-]. by repeat split.
  - destruct (classD pf x) eqn:Ex.
    + destruct (spanD pf t) as [d' r'] eqn:E. intros [= <- <-].
      destruct (IH d' r' eq_refl) as (-> & Hd & Hr).
      split; [reflexivity|]. split; [by constructor | exact Hr].
    + intros [= <- <-]. by repeat split.
Qed.

Lemma spanD_app pf d r :
  Forall (fun b => classD pf b = true) d ->
  match r with [] => True | b :: _ => classD pf b = false end ->
  spanD pf (d ++ r) = (d, r).
Proof.
  intros Hd Hr. induction Hd as [|x d Hx Hd IH]; cbn [app spanD].
  - destruct r as [|b t]; [reflexivity|]. cbn [spanD]. by rewrite Hr.
  - by rewrite Hx, IH.
Qed.

(** The scan of the tail, read back: class bytes of the group being
    read (at least one right after a [;]), then whole further groups,
    then the [m]. *)
Lemma paramsTail_sound pf l : forall st,
  paramsTail pf st l = true ->
  exists d ps rest,
    l = d ++ ps ++ LOWER_M :: rest
    /\ Forall (fun b => classD pf b = true) d
    /\ (st = true -> d <> [])
    /\ moreParams pf ps.
Proof.
  induction l as [|b t IH]; intros st; cbn [paramsTail]; [discriminate|].
  assert (classD pf b && paramsTail pf false t = true ->
          exists d ps rest,
            b :: t = d ++ ps ++ LOWER_M :: rest
            /\ Forall (fun b => classD pf b = true) d
            /\ (st = true -> d <> [])
            /\ moreParams pf ps) as Hclass.
  { intros [Hb Ht]%andb_prop.
    destruct (IH false Ht) as (d & ps & rest & -> & Hd & _ & Hps).
    exists (b :: d), ps, rest. repeat split; [by constructor | done | exact Hps]. }
  destruct st; [exact Hclass|].
  destruct (Byte.eqb b LOWER_M) eqn:Em.
  { intros _. apply Byte.byte_dec_bl in Em. subst b.
    exists [], [], t. repeat split; [constructor | done | constructor]. }
  destruct (Byte.eqb b SEMI) eqn:Es; [|exact Hclass].
  intros Ht. apply Byte.byte_dec_bl in Es. subst b.
  destruct (IH true Ht) as (d & ps & rest & -> & Hd & Hne & Hps).
  exists [], (SEMI :: d ++ ps), rest. cbn [app]. rewrite <- app_assoc.
  repeat split; [constructor | done |].
  constructor; [by apply Hne | exact Hd | exact Hps].
Qed.

Lemma paramsTail_class pf d l :
  Forall (fun b => classD pf b = true) d ->
  paramsTail pf false l = true ->
  paramsTail pf false (d ++ l) = true.
Proof.
  intros Hd Hl. induction Hd as [|x d Hx Hd IH]; cbn [app paramsTail]; [exact Hl|].
  by rewrite (classD_not_m pf x Hx), (classD_not_semi pf x Hx), Hx, IH.
Qed.

Lemma paramsTail_complete pf ps rest :
  moreParams pf ps -> paramsTail pf false (ps ++ LOWER_M :: rest) = true.
Proof.
  induction 1 as [|d ps' Hne Hd Hps IH]; [reflexivity|].
  cbn [app paramsTail]. change (Byte.eqb SEMI LOWER_M) with false.
  change (Byte.eqb SEMI SEMI) with true. cbn iota.
  destruct Hd as [|x d Hx Hd]; [done|].
  cbn [app paramsTail]. rewrite Hx. cbn [andb].
  rewrite <- app_assoc. by apply paramsTail_class.
Qed.

(** The scan at one position finds group 1 exactly when the pattern has a
    match there with that group.  The group is then the longest run of
    class bytes, the one that the greedy [\d+] takes: what follows it in a
    match is [;] or [m], which the class does not contain. *)
Lemma matchHere_spec pf l cap :
  matchHere pf l = Some cap <-> patternAt pf l cap.
Proof.
  split.
  - destruct l as [|b0 [|b1 l]]; cbn [matchHere]; try discriminate.
    destruct (Byte.eqb b0 ESC) eqn:E0; [|discriminate].
    destruct (Byte.eqb b1 LBRACKET) eqn:E1; [|discriminate]. cbn [andb].
    apply Byte.byte_dec_bl in E0, E1. subst b0 b1.
    destruct (spanD pf l) as [d r] eqn:Es.
    destruct (spanD_spec pf l d r Es) as (-> & Hd & Hr).
    destruct d as [|d0 d]; [discriminate|].
    destruct (paramsTail pf false r) eqn:Et; [|discriminate].
    intros [= <-].
    destruct (paramsTail_sound pf r false Et) as (d' & ps & rest & -> & Hd' & _ & Hps).
    destruct d' as [|x d'].
    + exists ps, rest. by repeat split.
    + apply Forall_cons in Hd' as [Hx _]. cbn [app] in Hr. congruence.
  - intros (ps & rest & -> & Hne & Hd & Hps). cbn [matchHere].
    change (Byte.eqb ESC ESC && Byte.eqb LBRACKET LBRACKET) with true. cbn iota.
    rewrite (spanD_app pf cap (ps ++ LOWER_M :: rest) Hd).
    + destruct cap; [done|]. by rewrite paramsTail_complete.
    + destruct Hps; cbn [app]; by destruct pf as [[] ?].
Qed.

(** The search returns group 1 of a match of the pattern somewhere in
    the text, and it returns one whenever the pattern has a match. *)
Lemma regexMatch_sound pf l cap :
  regexMatch pf l = Some cap ->
  exists before after, l = before ++ after /\ patternAt pf after cap.
Proof.
  induction l as [|b t IH]; [discriminate|].
  cbn [regexMatch]. destruct (matchHere pf (b :: t)) as [c|] eqn:E.
  - intros [= ->]. exists [], (b :: t). split; [reflexivity|].
    by apply matchHere_spec.
  - intros H. destruct (IH H) as (before & after & -> & Hp).
    by exists (b :: before), after.
Qed.

Lemma regexMatch_complete pf before after cap :
  patternAt pf after cap ->
  exists cap', regexMatch pf (before ++ after) = Some cap'.
Proof.
  intros Hp. apply matchHere_spec in Hp.
  induction before as [|b t IH]; cbn [app].
  - exists cap. destruct after as [|a after]; [discriminate Hp|].
    cbn [regexMatch]. by rewrite Hp.
  - destruct IH as [c Hc]. cbn [regexMatch].
    destruct (matchHere pf (b :: t ++ after)) as [c'|]; eauto.
Qed.

(** ** The sequences that [handleOutput] dispatches *)

Lemma byte_eqb_eq (a b : byte) : Byte.eqb a b = true <-> a = b.
Proof. split; [apply Byte.byte_dec_bl | apply Byte.byte_dec_lb]. Qed.

Lemma byte_eqb_neq (a b : byte) : Byte.eqb a b = false <-> a <> b.
Proof.
  split.
  - intros E ->. rewrite (proj2 (byte_eqb_eq b b) eq_refl) in E. discriminate.
  - intros N. destruct (Byte.eqb a b) eqn:E; [|reflexivity].
    apply byte_eqb_eq in E. contradiction.
Qed.

Lemma set_escBuf_twice b1 b2 s : set_escBuf b1 (set_escBuf b2 s) = set_escBuf b1 s.
Proof. reflexivity. Qed.

Lemma set_escBuf_same s : set_escBuf (escBuf s) s = s.
Proof. by destruct s. Qed.

(** The dispatch test fires on the first byte in ['@'..'~'] after the
    ESC, and ['['] is such a byte.  So a sequence that reaches
    [parseEscapeSequence] and starts with ESC [ is those two bytes and
    nothing more, and the pattern, which needs a parameter and an [m],
    cannot match it. *)
Lemma dispatched_sequence_ignored pf body b s :
  Forall (fun x => isFinal x = false) body ->
  parseEscapeSequence pf (ESC :: body ++ [b]) s = s.
Proof.
  intros Hbody. unfold parseEscapeSequence.
  destruct body as [|b1 body]; simpl.
  - destruct (Byte.eqb b LBRACKET) eqn:E; [|reflexivity].
    apply byte_eqb_eq in E. subst b. by destruct pf as [? []].
  - destruct (Byte.eqb b1 LBRACKET) eqn:E; [|reflexivity].
    apply byte_eqb_eq in E. subst b1.
    apply Forall_cons in Hbody as [Hb _]. discriminate Hb.
Qed.

Lemma handleByte_escape pf s b :
  pendingEscape (escBuf s) ->
  escBuf s <> [] \/ b = ESC ->
  handleByte pf s b
  = Ok (set_escBuf (if isFinal b then [] else escBuf s ++ [b]) s).
Proof.
  intros Hp Hin. unfold handleByte.
  assert (negb match escBuf s with [] => true | _ => false end || Byte.eqb b ESC = true) as ->.
  { destruct Hin as [Hne | ->]; [destruct (escBuf s); [done | reflexivity]|].
    apply orb_true_r. }
  destruct (isFinal b) eqn:Hf; [|reflexivity].
  f_equal. cbn [escBuf set_escBuf].
  destruct Hp as [Hnil | (body & Hbuf & Hbody)].
  - destruct Hin as [Hne | ->]; [contradiction | discriminate Hf].
  - rewrite Hbuf. cbn [app]. rewrite dispatched_sequence_ignored by exact Hbody.
    reflexivity.
Qed.

Lemma handleByte_ground pf s b :
  escBuf s = [] -> b <> ESC ->
  handleByte pf s b
  = if Byte.eqb b NEWLINE then Ok (nextLine s)
    else
      let! s1 :=
        (if (cursorY s <? rows s) && (cursorX s <? cols s)
         then let! scr := assignCell (cursorY s) (cursorX s)
                            (glyph (currentColor s) b) (screen s) in
              Ok (set_screen scr s)
         else Ok s) in
      let s2 := set_cursor (cursorX s1 + 1) (cursorY s1) s1 in
      if cols s2 <=? cursorX s2 then Ok (nextLine s2) else Ok s2.
Proof.
  intros Hb Hne. unfold handleByte. rewrite Hb.
  apply byte_eqb_neq in Hne. rewrite Hne. reflexivity.
Qed.

Lemma pendingEscape_snoc buf b :
  pendingEscape buf -> buf <> [] \/ b = ESC -> isFinal b = false ->
  pendingEscape (buf ++ [b]).
Proof.
  intros [-> | (body & -> & Hbody)] Hin Hf.
  - destruct Hin as [? | ->]; [done|]. right. exists []. by split.
  - right. exists (body ++ [b]). split; [reflexivity|].
    apply Forall_app. split; [exact Hbody | by constructor].
Qed.

Lemma parser_mode s b :
  (escBuf s <> [] \/ b = ESC) \/ (escBuf s = [] /\ b <> ESC).
Proof.
  destruct (escBuf s) as [|x l]; [|by left; left].
  destruct (Byte.eqb b ESC) eqn:E.
  - left. right. by apply byte_eqb_eq.
  - right. split; [reflexivity | by apply byte_eqb_neq].
Qed.

(** A byte handled in ground state changes the grid and the cursor at
    most. *)
Lemma handleByte_plain pf s b s' :
  escBuf s = [] -> b <> ESC ->
  handleByte pf s b = Ok s' ->
  currentColor s' = currentColor s /\ escBuf s' = []
  /\ rows s' = rows s /\ cols s' = cols s
  /\ charWidth s' = charWidth s /\ charHeight s' = charHeight s.
Proof.
  intros He Hne. rewrite handleByte_ground by assumption.
  destruct (Byte.eqb b NEWLINE).
  { intros [= <-]. by repeat split. }
  destruct ((cursorY s <? rows s) && (cursorX s <? cols s)); cbn.
  - destruct (assignCell _ _ _ _) as [scr|f]; cbn; [|discriminate].
    destruct (cols s <=? cursorX s + 1); intros [= <-]; by repeat split.
  - destruct (cols s <=? cursorX s + 1); intros [= <-]; by repeat split.
Qed.

(** What a single byte may change, by the mode the parser is in. *)
Lemma handleByte_effect pf s b s' :
  pendingEscape (escBuf s) ->
  handleByte pf s b = Ok s' ->
  pendingEscape (escBuf s')
  /\ currentColor s' = currentColor s
  /\ rows s' = rows s /\ cols s' = cols s
  /\ charWidth s' = charWidth s /\ charHeight s' = charHeight s.
Proof.
  intros Hp.
  destruct (parser_mode s b) as [Hin | [Hnil Hne]].
  - rewrite handleByte_escape by assumption. intros [= <-]. cbn.
    split; [|by repeat split].
    destruct (isFinal b) eqn:Hf; [by left | by apply pendingEscape_snoc].
  - intros E.
    destruct (handleByte_plain pf s b s' Hnil Hne E) as (Hc & He' & Hrest).
    split; [by left|]. split; [exact Hc | exact Hrest].
Qed.

Lemma handleOutput_effect pf data : forall s s',
  pendingEscape (escBuf s) ->
  handleOutput pf s data = Ok s' ->
  pendingEscape (escBuf s')
  /\ currentColor s' = currentColor s
  /\ rows s' = rows s /\ cols s' = cols s
  /\ charWidth s' = charWidth s /\ charHeight s' = charHeight s.
Proof.
  induction data as [|b rest IH]; intros s s' Hp; simpl.
  - intros [= <-]. by repeat split.
  - destruct (handleByte pf s b) as [s1|f] eqn:E1; simpl; [|discriminate].
    intros E2.
    destruct (handleByte_effect _ _ _ _ Hp E1) as (Hp1 & Hc1 & Hr1 & Hk1 & Hw1 & Hh1).
    destruct (IH _ _ Hp1 E2) as (Hp2 & Hc2 & Hr2 & Hk2 & Hw2 & Hh2).
    repeat split; congruence.
Qed.

(** Whatever is fed to the widget its constructor made, the current colour
    stays white: no sequence that [handleOutput] dispatches can match the
    pattern. *)
Lemma handleOutput_keeps_white pf cw ch data s' :
  handleOutput pf (constructed cw ch) data = Ok s' -> currentColor s' = white.
Proof.
  intros E.
  apply (handleOutput_effect pf data (constructed cw ch) s'); [by left | exact E].
Qed.

(** The platform cannot be observed through [handleOutput]. *)
Lemma handleByte_platform d1 d2 s b :
  pendingEscape (escBuf s) -> handleByte d1 s b = handleByte d2 s b.
Proof.
  intros Hp.
  destruct (parser_mode s b) as [Hin | [Hnil Hne]].
  - by rewrite !handleByte_escape.
  - by rewrite !handleByte_ground.
Qed.

Lemma handleOutput_platform d1 d2 data : forall s,
  pendingEscape (escBuf s) -> handleOutput d1 s data = handleOutput d2 s data.
Proof.
  induction data as [|b rest IH]; intros s Hp; simpl; [reflexivity|].
  rewrite (handleByte_platform d1 d2) by exact Hp.
  destruct (handleByte d2 s b) as [s1|f] eqn:E; simpl; [|reflexivity].
  apply IH. eapply handleByte_effect; eauto.
Qed.

(** ** Writes stay inside the grid *)

Lemma shaped_ext s s' :
  screen s' = screen s -> rows s' = rows s -> cols s' = cols s ->
  shaped s -> shaped s'.
Proof. unfold shaped. intros -> -> ->. done. Qed.

Lemma qMin_spec a b : qMin a b = Z.min a b.
Proof. unfold qMin. destruct (a <? b) eqn:E; lia. Qed.

Lemma assignCell_ok (scr : list (list Cell)) (nrows ncols y x : Z) (c : Cell) :
  length scr = Z.to_nat nrows ->
  Forall (fun r => length r = Z.to_nat ncols) scr ->
  0 <= y < nrows -> 0 <= x < ncols ->
  exists row,
    scr !! Z.to_nat y = Some row
    /\ assignCell y x c scr = Ok (<[Z.to_nat y := <[Z.to_nat x := c]> row]> scr)
    /\ length (<[Z.to_nat y := <[Z.to_nat x := c]> row]> scr) = Z.to_nat nrows
    /\ Forall (fun r => length r = Z.to_nat ncols)
         (<[Z.to_nat y := <[Z.to_nat x := c]> row]> scr).
Proof.
  intros Hlen Hrows Hy Hx.
  destruct (lookup_lt_is_Some_2 scr (Z.to_nat y)) as [row Hrow]; [lia|].
  assert (length row = Z.to_nat ncols) as Hrl
    by exact (proj1 (Forall_lookup _ _) Hrows _ _ Hrow).
  exists row. split; [exact Hrow|]. split; [|split].
  - unfold assignCell. rewrite Hrow.
    assert ((0 <=? y) && (0 <=? x) = true) as -> by lia.
    assert ((Z.to_nat x <? length row)%nat = true) as ->
      by (apply Nat.ltb_lt; lia).
    reflexivity.
  - by rewrite length_insert.
  - apply Forall_insert; [exact Hrows|]. by rewrite length_insert.
Qed.

(** One byte, from a cursor that is not negative in a grid of at least one
    row: no index fault, the grid keeps its shape, and a cursor inside the
    grid stays inside. *)
Lemma handleByte_safe pf s b :
  shaped s -> 1 <= rows s -> 0 <= cursorX s -> 0 <= cursorY s ->
  exists s',
    handleByte pf s b = Ok s'
    /\ shaped s' /\ rows s' = rows s /\ cols s' = cols s
    /\ 0 <= cursorX s' /\ 0 <= cursorY s'
    /\ (cursorInGrid s -> cursorInGrid s').
Proof.
  intros Hs Hr Hx Hy. unfold handleByte.
  destruct Hs as (Hlen & Hrows & Hr0 & Hc0).
  destruct (negb _ || Byte.eqb b ESC).
  { destruct (parseEscapeSequence_frame pf (escBuf s ++ [b]) (set_escBuf (escBuf s ++ [b]) s))
      as (Fs & Fr & Fc & Fx & Fy & _).
    cbn in Fs, Fr, Fc, Fx, Fy.
    destruct (isFinal b); eexists; (split; [reflexivity|]);
      unfold cursorInGrid, shaped; cbn; rewrite ?Fs, ?Fr, ?Fc, ?Fx, ?Fy;
      repeat split; try done; lia. }
  destruct (Byte.eqb b NEWLINE).
  { eexists. split; [reflexivity|]. unfold cursorInGrid, nextLine, shaped. cbn.
    rewrite qMin_spec. repeat split; try done; lia. }
  destruct ((cursorY s <? rows s) && (cursorX s <? cols s)) eqn:Hg.
  - apply andb_prop in Hg as [Hgy%Z.ltb_lt Hgx%Z.ltb_lt].
    destruct (assignCell_ok (screen s) (rows s) (cols s) (cursorY s) (cursorX s)
                (mkCell (QChar_of_uchar b) (currentColor s)))
      as (row & _ & -> & Hlen' & Hrows'); [done | done | lia | lia |].
    cbn. destruct (cols s <=? cursorX s + 1) eqn:Hw;
      eexists; (split; [reflexivity|]); unfold cursorInGrid, nextLine, shaped; cbn;
      rewrite ?qMin_spec; repeat split; try done; lia.
  - cbn. destruct (cols s <=? cursorX s + 1) eqn:Hw;
      eexists; (split; [reflexivity|]); unfold cursorInGrid, nextLine, shaped; cbn;
      rewrite ?qMin_spec; repeat split; try done; lia.
Qed.

Lemma handleOutput_safe pf data : forall s,
  shaped s -> 1 <= rows s -> 0 <= cursorX s -> 0 <= cursorY s ->
  exists s',
    handleOutput pf s data = Ok s'
    /\ shaped s' /\ rows s' = rows s /\ cols s' = cols s
    /\ 0 <= cursorX s' /\ 0 <= cursorY s'
    /\ (cursorInGrid s -> cursorInGrid s').
Proof.
  induction data as [|b rest IH]; intros s Hs Hr Hx Hy; simpl.
  - exists s. split; [reflexivity|]. split; [exact Hs|]. tauto.
  - destruct (handleByte_safe pf s b Hs Hr Hx Hy)
      as (s1 & -> & Hs1 & Hr1 & Hc1 & Hx1 & Hy1 & Hin1). simpl.
    destruct (IH s1 Hs1 ltac:(lia) Hx1 Hy1)
      as (s2 & E2 & Hs2 & Hr2 & Hc2 & Hx2 & Hy2 & Hin2).
    exists s2. split; [exact E2|]. split; [exact Hs2|].
    split; [congruence|]. split; [congruence|]. tauto.
Qed.

(** ** The range of [int]

    From members that fit, a byte leaves members that fit; the values
    formed on the way, [cursorX + 1], [cursorY + 1] and [rows - 1], lie
    between -1 and [INT_MAX]. *)
Lemma handleByte_fitsInt pf s b s' :
  fitsInt s -> handleByte pf s b = Ok s' -> fitsInt s'.
Proof.
  unfold fitsInt, INT_MAX. intros Hf. unfold handleByte.
  destruct (negb _ || Byte.eqb b ESC).
  { destruct (parseEscapeSequence_frame pf (escBuf s ++ [b]) (set_escBuf (escBuf s ++ [b]) s))
      as (_ & Fr & Fc & Fx & Fy & _).
    cbn in Fr, Fc, Fx, Fy.
    destruct (isFinal b); intros [= <-]; cbn; rewrite ?Fr, ?Fc, ?Fx, ?Fy; exact Hf. }
  destruct (Byte.eqb b NEWLINE).
  { intros [= <-]. unfold nextLine. cbn. rewrite qMin_spec. lia. }
  destruct ((cursorY s <? rows s) && (cursorX s <? cols s)).
  - destruct (assignCell _ _ _ _) as [scr|f]; cbn; [|discriminate].
    destruct (cols s <=? cursorX s + 1) eqn:Hw; intros [= <-];
      unfold nextLine; cbn; rewrite ?qMin_spec; lia.
  - cbn. destruct (cols s <=? cursorX s + 1) eqn:Hw; intros [= <-];
      unfold nextLine; cbn; rewrite ?qMin_spec; lia.
Qed.

(** ** The initial widget *)

Lemma constructed_shaped cw ch : shaped (constructed cw ch).
Proof.
  unfold shaped. cbn. split; [reflexivity|]. split; [|by split].
  repeat constructor.
Qed.

Lemma initial_shaped : shaped initial.
Proof. apply constructed_shaped. Qed.

(** ** Printing along a row *)

Lemma printable_plain b : printable b = true -> b <> ESC /\ b <> NEWLINE.
Proof. intros H. split; intros ->; vm_compute in H; discriminate. Qed.

(** Bytes printed without reaching the right edge: each one lands in the
    next column of the same row and nothing else moves. *)
Lemma handleOutput_run pf data : forall s row,
  shaped s -> escBuf s = [] ->
  0 <= cursorY s < rows s -> 0 <= cursorX s ->
  cursorX s + Z.of_nat (length data) < cols s ->
  Forall (fun b => b <> ESC /\ b <> NEWLINE) data ->
  screen s !! Z.to_nat (cursorY s) = Some row ->
  handleOutput pf s data
  = Ok (printed s (cursorX s + Z.of_nat (length data))
          (take (Z.to_nat (cursorX s)) row
           ++ (glyph (currentColor s) <$> data)
           ++ drop (Z.to_nat (cursorX s) + length data) row)).
Proof.
  induction data as [|b rest IH]; intros s row Hs He Hy Hx Hfit Hplain Hrow.
  - cbn [handleOutput length fmap list_fmap app]. f_equal.
    rewrite Nat.add_0_r, take_drop. unfold printed.
    rewrite list_insert_id by exact Hrow.
    rewrite Z.add_0_r. by destruct s.
  - apply Forall_cons in Hplain as [[Hesc Hnl] Hplain].
    cbn [length] in Hfit. cbn [handleOutput].
    rewrite handleByte_ground by assumption.
    apply byte_eqb_neq in Hnl. rewrite Hnl.
    assert ((cursorY s <? rows s) && (cursorX s <? cols s) = true) as -> by lia.
    destruct Hs as (Hlen & Hrows & Hr0 & Hc0).
    destruct (assignCell_ok (screen s) (rows s) (cols s) (cursorY s) (cursorX s)
                (glyph (currentColor s) b))
      as (row0 & Hrow0 & -> & Hlen' & Hrows'); [done | done | lia | lia |].
    assert (row0 = row) as -> by congruence.
    assert (length row = Z.to_nat (cols s)) as Hrl
      by exact (proj1 (Forall_lookup _ _) Hrows _ _ Hrow).
    cbn [bind set_screen set_cursor cols cursorX cursorY].
    assert ((cols s <=? cursorX s + 1) = false) as -> by lia.
    cbn [bind].
    set (c := glyph (currentColor s) b).
    set (n := Z.to_nat (cursorX s)).
    rewrite (IH _ (<[n := c]> row)); cbn.
    + f_equal. unfold printed. cbn.
      rewrite list_insert_insert_eq.
      replace (Z.to_nat (cursorX s + 1)) with (S n) by lia.
      rewrite (take_S_r _ _ c) by (apply list_lookup_insert_eq; lia).
      rewrite take_insert_ge by lia.
      rewrite drop_insert_lt by lia.
      rewrite <- app_assoc. cbn [app].
      replace (S n + length rest)%nat with (n + S (length rest))%nat by lia.
      replace (cursorX s + 1 + Z.of_nat (length rest))
        with (cursorX s + Z.of_nat (S (length rest))) by lia.
      reflexivity.
    + unfold shaped. cbn. done.
    + exact He.
    + lia.
    + lia.
    + lia.
    + exact Hplain.
    + apply list_lookup_insert_eq. lia.
Qed.

(** C7. From column 0 of any row [r], printing exactly [cols] printable
    glyphs fills row [r] with them and leaves the cursor at column 0 of
    row [r + 1], or of the last row when [r] is the last row.  No other row
    changes (nothing scrolls) and the cursor never moves up. *)
Theorem print_cols_wraps pf s data :
  shaped s -> escBuf s = [] ->
  cursorX s = 0 -> 0 <= cursorY s < rows s ->
  1 <= cols s -> Z.of_nat (length data) = cols s ->
  Forall (fun b => printable b = true) data ->
  exists s',
    handleOutput pf s data = Ok s'
    /\ cursorX s' = 0
    /\ cursorY s' = (if cursorY s =? rows s - 1 then rows s - 1 else cursorY s + 1)
    /\ cursorY s <= cursorY s'
    /\ screen s' = <[Z.to_nat (cursorY s) := glyph (currentColor s) <$> data]> (screen s)
    /\ rows s' = rows s /\ cols s' = cols s
    /\ currentColor s' = currentColor s /\ escBuf s' = [].
Proof.
  intros Hs He Hx Hy Hc Hlen Hpr.
  assert (Forall (fun b => b <> ESC /\ b <> NEWLINE) data) as Hplain
    by (eapply Forall_impl; [exact Hpr | intros b; apply printable_plain]).
  destruct data as [|b0 t] using rev_ind; [cbn in Hlen; lia|]. clear IHt.
  rename t into front, b0 into last.
  apply Forall_app in Hplain as [Hfront Hlast].
  apply Forall_cons in Hlast as [[Hesc Hnl] _].
  rewrite length_app in Hlen. cbn [length] in Hlen.
  destruct (lookup_lt_is_Some_2 (screen s) (Z.to_nat (cursorY s))) as [row Hrow];
    [destruct Hs as [-> _]; lia|].
  assert (length row = Z.to_nat (cols s)) as Hrl.
  { destruct Hs as (_ & Hrows & _). exact (proj1 (Forall_lookup _ _) Hrows _ _ Hrow). }
  set (cells := glyph (currentColor s) <$> front).
  assert (length cells = length front) as Hcl by apply length_fmap.
  assert (handleOutput pf s front
          = Ok (printed s (Z.of_nat (length front)) (cells ++ drop (length front) row)))
    as Hrun.
  { rewrite (handleOutput_run pf front s row) by (try done; lia).
    rewrite Hx. reflexivity. }
  rewrite handleOutput_app, Hrun. cbn [bind].
  set (s1 := printed s _ _).
  cbn [handleOutput].
  rewrite handleByte_ground by done.
  apply byte_eqb_neq in Hnl. rewrite Hnl.
  assert ((cursorY s1 <? rows s1) && (cursorX s1 <? cols s1) = true) as ->
    by (cbn; lia).
  destruct (drop (length front) row) as [|old rest] eqn:Hdrop.
  { apply (f_equal length) in Hdrop. rewrite length_drop in Hdrop. cbn in Hdrop. lia. }
  assert (rest = []) as ->.
  { apply (f_equal length) in Hdrop. rewrite length_drop in Hdrop. cbn in Hdrop.
    destruct rest; [done | cbn in Hdrop; lia]. }
  assert (assignCell (cursorY s1) (cursorX s1) (glyph (currentColor s1) last) (screen s1)
          = Ok (<[Z.to_nat (cursorY s) := glyph (currentColor s) <$> (front ++ [last])]> (screen s)))
    as ->.
  { unfold assignCell, s1, printed.
    cbn [cursorY cursorX screen currentColor set_cursor set_screen].
    assert ((0 <=? cursorY s) && (0 <=? Z.of_nat (length front)) = true) as -> by lia.
    rewrite list_lookup_insert_eq by (destruct Hs as [-> _]; lia).
    rewrite length_app. cbn [length]. rewrite Hcl, Nat2Z.id.
    assert ((length front <? length front + 1)%nat = true) as ->
      by (apply Nat.ltb_lt; lia).
    f_equal. rewrite list_insert_insert_eq. f_equal.
    rewrite fmap_app. fold cells. cbn [fmap list_fmap].
    replace (length front) with (length cells + 0)%nat at 1 by lia.
    by rewrite insert_app_r. }
  cbn [bind set_screen set_cursor cols cursorX cursorY].
  assert ((cols s1 <=? cursorX s1 + 1) = true) as -> by (cbn; lia).
  eexists. split; [reflexivity|]. cbn. rewrite qMin_spec.
  repeat split; try done.
  - destruct (cursorY s =? rows s - 1) eqn:E; lia.
  - lia.
Qed.

Lemma print_cols_wraps_witness :
  shaped initial /\ escBuf initial = [] /\ cursorX initial = 0
  /\ 0 <= cursorY initial < rows initial /\ 1 <= cols initial
  /\ Z.of_nat (length (replicate 80 "A"%byte)) = cols initial
  /\ Forall (fun b => printable b = true) (replicate 80 "A"%byte)
  /\ exists s',
       handleOutput intended initial (replicate 80 "A"%byte) = Ok s'
       /\ cursorX s' = 0 /\ cursorY s' = 1
       /\ screen s' = <[0%nat := replicate 80 (glyph white "A"%byte)]> (screen initial).
Proof.
  assert (0 <= cursorY initial < rows initial) as Hy by (by split).
  assert (1 <= cols initial) as Hc by discriminate.
  assert (Forall (fun b => printable b = true) (replicate 80 "A"%byte)) as Hp
    by (apply Forall_replicate; reflexivity).
  split; [exact initial_shaped|]. split; [reflexivity|]. split; [reflexivity|].
  split; [exact Hy|]. split; [exact Hc|]. split; [reflexivity|]. split; [exact Hp|].
  destruct (print_cols_wraps intended initial (replicate 80 "A"%byte)
              initial_shaped eq_refl eq_refl Hy Hc eq_refl Hp)
    as (s' & E & Hx' & Hy' & _ & Hscr & _).
  exists s'. exact (conj E (conj Hx' (conj Hy' Hscr))).
Defined.

(** ** End to end: ESC [ 3 1 m H I CR LF *)

(** C1. On the fresh widget the bytes ESC [ 3 1 m H I CR LF do not give a
    red H and I in cells (0,0) and (0,1).  The dispatch test fires on ['['],
    which lies in ['@'..'~'], so the escape ends after two bytes and the
    parameter bytes are printed: the first row starts 3 1 m H I CR, all in
    white, the colour is still white, and the cursor ends at row 1,
    column 0. *)
Theorem red_HI_prints_its_parameters (pf : Platform) :
  observe (fun s => (cellAt s 0 0, cellAt s 0 1, cellAt s 0 2))
    (handleOutput pf initial red_HI_crlf)
  = Some (Some (glyph white "3"), Some (glyph white "1"), Some (glyph white "m"))%byte
  /\ observe (fun s => (cellAt s 0 3, cellAt s 0 4, cellAt s 0 5))
       (handleOutput pf initial red_HI_crlf)
     = Some (Some (glyph white "H"), Some (glyph white "I"), Some (glyph white x0d))%byte
  /\ observe (fun s => (cursorY s, cursorX s, currentColor s, escBuf s))
       (handleOutput pf initial red_HI_crlf)
     = Some (1, 0, white, []).
Proof. destruct pf as [[] []]; vm_compute; repeat split. Qed.

(** ** The accumulator has no length guard *)

Lemma handleOutput_accumulates pf data : forall s,
  pendingEscape (escBuf s) -> escBuf s <> [] ->
  Forall (fun b => isFinal b = false) data ->
  handleOutput pf s data = Ok (set_escBuf (escBuf s ++ data) s).
Proof.
  induction data as [|b rest IH]; intros s Hp Hne Hnf; cbn [handleOutput].
  - rewrite app_nil_r. by rewrite set_escBuf_same.
  - apply Forall_cons in Hnf as [Hb Hrest].
    rewrite handleByte_escape by (try done; by left).
    rewrite Hb. cbn [bind].
    rewrite IH; cbn [escBuf set_escBuf].
    + by rewrite <- app_assoc.
    + apply pendingEscape_snoc; [done | by left | done].
    + by destruct (escBuf s).
    + exact Hrest.
Qed.

(** C3, as the code has it.  Nothing bounds the accumulator: after an ESC
    read in ground state, as long as no byte in ['@'..'~'] arrives every
    byte is appended to [escBuf], whatever its length, and nothing else
    changes.  Only a byte in ['@'..'~'] empties it, and the widget is then
    what it was before the ESC. *)
Theorem escBuf_has_no_length_guard pf s data :
  escBuf s = [] ->
  Forall (fun b => isFinal b = false) data ->
  handleOutput pf s (ESC :: data) = Ok (set_escBuf (ESC :: data) s)
  /\ (forall b, isFinal b = true -> handleOutput pf s (ESC :: data ++ [b]) = Ok s).
Proof.
  intros He Hnf.
  assert (handleOutput pf s (ESC :: data) = Ok (set_escBuf (ESC :: data) s)) as Hacc.
  { cbn [handleOutput].
    rewrite handleByte_escape; [| rewrite He; by left | by right].
    rewrite He. cbn [bind isFinal app].
    change (isFinal ESC) with false. cbn iota.
    rewrite handleOutput_accumulates; cbn [escBuf set_escBuf]; try done.
    right. exists []. by split. }
  split; [exact Hacc|].
  intros b Hb.
  change (ESC :: data ++ [b]) with ((ESC :: data) ++ [b]).
  rewrite handleOutput_app, Hacc. cbn [bind handleOutput].
  rewrite handleByte_escape; cbn [escBuf set_escBuf].
  - rewrite Hb. cbn [bind]. f_equal. rewrite set_escBuf_twice, <- He.
    apply set_escBuf_same.
  - right. by exists data.
  - by left.
Qed.

Lemma escBuf_has_no_length_guard_witness :
  escBuf initial = []
  /\ Forall (fun b => isFinal b = false) (replicate 70 "0"%byte)
  /\ handleOutput intended initial (ESC :: replicate 70 "0"%byte)
     = Ok (set_escBuf (ESC :: replicate 70 "0"%byte) initial).
Proof.
  assert (Forall (fun b => isFinal b = false) (replicate 70 "0"%byte)) as H
    by (apply Forall_replicate; reflexivity).
  split; [reflexivity|]. split; [exact H|].
  exact (proj1 (escBuf_has_no_length_guard intended initial _ eq_refl H)).
Defined.

(** C3, as the spec has it, fails: after ESC and a hundred digits the
    accumulator holds 101 bytes, more than 64, and the parser has not gone
    back to ground. *)
Lemma escBuf_exceeds_64 :
  observe escBuf (handleOutput intended initial (ESC :: replicate 100 "0"%byte))
  = Some (ESC :: replicate 100 "0"%byte)
  /\ (64 < length (ESC :: replicate 100 "0"%byte))%nat.
Proof. split; [vm_compute; reflexivity | cbn; lia]. Qed.

(** ** Erase display *)

(** C4, as the code has it.  No erase is implemented: the only command
    that [parseEscapeSequence] knows ends in [m], so dispatching
    ESC [ 2 J, or ESC [ with any other parameter bytes and a final [J],
    resets no cell and leaves the grid, the cursor, the colour and
    everything else as they were.  Fed to a widget in ground state, the
    four bytes ESC [ 2 J leave the current colour unchanged too. *)
Theorem erase_display_not_implemented pf s :
  (forall params,
      Forall (fun b => isFinal b = false) params ->
      parseEscapeSequence pf ([ESC; "["%byte] ++ params ++ ["J"%byte]) s = s)
  /\ (forall s',
         escBuf s = [] ->
         handleOutput pf s erase_display_all = Ok s' ->
         currentColor s' = currentColor s).
Proof.
  split.
  - intros params Hp. apply parseEscapeSequence_no_m.
    cbn [app]. intros [E | [E | Hin]]; [discriminate E | discriminate E |].
    apply in_app_or in Hin as [Hin | [E | []]]; [|discriminate E].
    apply list_elem_of_In in Hin.
    apply (proj1 (Forall_forall _ _) Hp) in Hin. discriminate Hin.
  - intros s' He Hrun.
    apply (handleOutput_effect pf erase_display_all s s'); [|exact Hrun].
    left. exact He.
Qed.

Lemma erase_display_not_implemented_witness :
  Forall (fun b => isFinal b = false) ["2"%byte]
  /\ parseEscapeSequence intended erase_display_all initial = initial
  /\ escBuf initial = []
  /\ observe currentColor (handleOutput intended initial erase_display_all)
     = Some (currentColor initial).
Proof.
  assert (Forall (fun b => isFinal b = false) ["2"%byte]) as H
    by (repeat constructor).
  split; [exact H|]. split.
  - exact (proj1 (erase_display_not_implemented intended initial) ["2"%byte] H).
  - split; [reflexivity|].
    destruct (handleOutput intended initial erase_display_all) as [s'|f] eqn:E.
    + cbn. f_equal.
      exact (proj2 (erase_display_not_implemented intended initial) s' eq_refl E).
    + discriminate E.
Defined.

(** C4, as the spec has it, fails: after A and B are printed, feeding
    ESC [ 2 J blanks nothing.  The A is still in cell (0,0), the bytes 2
    and J are now in cells (0,2) and (0,3), and the cursor has moved from
    column 2 to column 4. *)
Lemma erase_display_leaves_content :
  observe (fun s => (cellAt s 0 0, cursorY s, cursorX s))
    (handleOutput intended initial ["A"; "B"]%byte)
  = Some (Some (glyph white "A"%byte), 0, 2)
  /\ observe (fun s => (cellAt s 0 0, cellAt s 0 2, cellAt s 0 3, cursorY s, cursorX s))
       (handleOutput intended initial (["A"; "B"]%byte ++ erase_display_all))
     = Some (Some (glyph white "A"%byte), Some (glyph white "2"%byte),
             Some (glyph white "J"%byte), 0, 4).
Proof. split; vm_compute; reflexivity. Qed.

(** ** Select graphic rendition *)

(** The introducer of a control sequence never reaches its parameters.
    In ground state ESC opens the accumulator, ['['] is a byte of
    ['@'..'~'], so the two bytes are dispatched and dropped, and what
    follows is handled in ground state again. *)
Lemma csi_introducer_is_dropped pf s rest :
  escBuf s = [] ->
  handleOutput pf s (ESC :: "["%byte :: rest) = handleOutput pf s rest.
Proof.
  intros He. cbn [handleOutput].
  rewrite handleByte_escape; [| rewrite He; by left | by right].
  rewrite He. change (isFinal ESC) with false. cbn [bind app].
  rewrite handleByte_escape; cbn [escBuf set_escBuf].
  - change (isFinal "["%byte) with true. cbn [bind].
    rewrite set_escBuf_twice, <- He. by rewrite set_escBuf_same.
  - right. exists []. by split.
  - by left.
Qed.

(** C5. The reset ESC [ 0 m alters a printed cell.  The dispatch test
    fires on ['['], so in ground state the four bytes are handled as the
    text 0 m: the two parameter bytes are printed at the cursor.  On the
    fresh widget, after the last row was filled with the letter A and the
    cursor wrapped to its first column, the reset overwrites the A of
    cells (23,0) and (23,1) with 0 and m and moves the cursor to column 2.
    The colour is white before and after: it is the default, and it is
    never anything else.  This holds on every platform. *)
Theorem sgr_reset_prints_its_parameter (pf : Platform) :
  (forall s,
      escBuf s = [] ->
      handleOutput pf s sgr_reset = handleOutput pf s ["0"; "m"]%byte)
  /\ observe (fun s => (cellAt s 23 0, cellAt s 23 1, cursorY s, cursorX s, currentColor s))
       (handleOutput pf initial fill_last_row)
     = Some (Some (glyph white "A"), Some (glyph white "A"), 23, 0, white)%byte
  /\ observe (fun s => (cellAt s 23 0, cellAt s 23 1, cursorY s, cursorX s, currentColor s))
       (handleOutput pf initial (fill_last_row ++ sgr_reset))
     = Some (Some (glyph white "0"), Some (glyph white "m"), 23, 2, white)%byte
  /\ color defaultCell = white.
Proof.
  split; [|split; [|split]].
  - intros s He. exact (csi_introducer_is_dropped pf s ["0"; "m"]%byte He).
  - rewrite (handleOutput_platform pf intended) by (by left).
    vm_compute; reflexivity.
  - rewrite (handleOutput_platform pf intended) by (by left).
    vm_compute; reflexivity.
  - reflexivity.
Qed.

Lemma sgr_reset_prints_its_parameter_witness :
  escBuf initial = []
  /\ handleOutput (mkPlatform LetterD Qt5) initial sgr_reset
     = handleOutput (mkPlatform LetterD Qt5) initial ["0"; "m"]%byte
  /\ observe (fun s => (cellAt s 0 0, cellAt s 0 1, cursorY s, cursorX s, currentColor s))
       (handleOutput (mkPlatform LetterD Qt5) initial ["0"; "m"]%byte)
     = Some (Some (glyph white "0"), Some (glyph white "m"), 0, 2, white)%byte.
Proof.
  split; [reflexivity|]. split; [|vm_compute; reflexivity].
  exact (proj1 (sgr_reset_prints_its_parameter (mkPlatform LetterD Qt5)) initial eq_refl).
Defined.

(** ** Resize *)

Lemma resizeEvent_cell (scr : list (list Cell)) (nrows ncols y x : nat) :
  (y < nrows)%nat -> (x < ncols)%nat ->
  match (resize ncols defaultCell <$> resize nrows [] scr) !! y with
  | Some row => row !! x
  | None => None
  end
  = Some (default defaultCell match scr !! y with
                              | Some row => row !! x
                              | None => None
                              end).
Proof.
  intros Hy Hx. rewrite list_lookup_fmap.
  destruct (decide (y < length scr)%nat) as [Hin | Hout].
  - rewrite lookup_resize by done.
    destruct (lookup_lt_is_Some_2 scr y Hin) as [row ->]. cbn.
    destruct (decide (x < length row)%nat) as [Hxin | Hxout].
    + rewrite lookup_resize by done.
      by destruct (lookup_lt_is_Some_2 row x Hxin) as [c ->].
    + rewrite lookup_resize_new by lia.
      by rewrite (lookup_ge_None_2 row x) by lia.
  - rewrite lookup_resize_new by lia. cbn.
    rewrite (lookup_ge_None_2 scr y) by lia.
    by rewrite lookup_resize_new by (cbn; lia).
Qed.

Lemma resizeEvent_ok (w h : Z) (s : TerminalWidget) :
  0 < charWidth s -> 0 < charHeight s -> 0 <= w -> 0 <= h ->
  exists s',
    resizeEvent w h s = Ok s'
    /\ cursorX s' = cursorX s /\ cursorY s' = cursorY s
    /\ rows s' = Z.quot h (charHeight s) /\ cols s' = Z.quot w (charWidth s)
    /\ charWidth s' = charWidth s /\ charHeight s' = charHeight s
    /\ shaped s'
    /\ (forall y x : nat,
           (y < Z.to_nat (rows s'))%nat -> (x < Z.to_nat (cols s'))%nat ->
           cellAt s' y x = Some (default defaultCell (cellAt s y x))).
Proof.
  intros Hw Hh H0w H0h. unfold resizeEvent.
  pose proof (Z.quot_pos w (charWidth s) H0w Hw) as Hc.
  pose proof (Z.quot_pos h (charHeight s) H0h Hh) as Hr.
  assert ((charWidth s =? 0) || (charHeight s =? 0) = false) as -> by lia.
  assert ((Z.quot h (charHeight s) <? 0) || (Z.quot w (charWidth s) <? 0) = false)
    as -> by lia.
  eexists. split; [reflexivity|]. cbn.
  do 6 (split; [reflexivity|]). split.
  - unfold shaped. cbn. rewrite length_fmap, length_resize.
    split; [reflexivity|]. split; [|by split].
    apply Forall_fmap, Forall_true. intros row. cbn. apply length_resize.
  - intros y x Hy Hx. unfold cellAt. cbn. by apply resizeEvent_cell.
Qed.

(** C6, as the code has it.  With a font of positive width and height a
    resize never fails.  It sets [rows] and [cols] from the new size,
    gives the grid that shape, keeps the cells of the top-left part that
    both grids share and fills the rest with blanks.  It does not clamp
    the cursor: [cursorX] and [cursorY] stay as they were, so after a
    shrink the cursor is inside the new grid only if it already was. *)
Theorem resizeEvent_keeps_cursor (w h : Z) (s : TerminalWidget) :
  0 < charWidth s -> 0 < charHeight s -> 0 <= w -> 0 <= h ->
  exists s',
    resizeEvent w h s = Ok s'
    /\ cursorX s' = cursorX s /\ cursorY s' = cursorY s
    /\ rows s' = Z.quot h (charHeight s) /\ cols s' = Z.quot w (charWidth s)
    /\ charWidth s' = charWidth s /\ charHeight s' = charHeight s
    /\ shaped s'
    /\ (forall y x : nat,
           (y < Z.to_nat (rows s'))%nat -> (x < Z.to_nat (cols s'))%nat ->
           cellAt s' y x = Some (default defaultCell (cellAt s y x))).
Proof. apply resizeEvent_ok. Qed.

Lemma resizeEvent_keeps_cursor_witness :
  0 < charWidth initial /\ 0 < charHeight initial /\ 0 <= 400 /\ 0 <= 216
  /\ exists s',
       resizeEvent 400 216 initial = Ok s'
       /\ cursorX s' = 0 /\ cursorY s' = 0 /\ rows s' = 12 /\ cols s' = 40.
Proof.
  assert (0 < charWidth initial) as H1 by reflexivity.
  assert (0 < charHeight initial) as H2 by reflexivity.
  assert (0 <= 400) as H3 by discriminate.
  assert (0 <= 216) as H4 by discriminate.
  split; [exact H1|]. split; [exact H2|]. split; [exact H3|]. split; [exact H4|].
  destruct (resizeEvent_keeps_cursor 400 216 initial H1 H2 H3 H4)
    as (s' & E & Hx & Hy & Hr & Hc & _).
  exists s'. exact (conj E (conj Hx (conj Hy (conj Hr Hc)))).
Defined.

(** C6, as the spec has it, fails: with the cursor in row 20, column 70 of
    the 80 by 24 grid, the resize to 40 by 12 leaves it in row 20,
    column 70, outside the new grid. *)
Lemma resize_does_not_clamp :
  observe (fun s => (rows s, cols s, cursorY s, cursorX s))
    (handleOutput intended initial walk_to_20_70)
  = Some (24, 80, 20, 70)
  /\ observe (fun s => (rows s, cols s, cursorY s, cursorX s))
       (let! s1 := handleOutput intended initial walk_to_20_70 in
        resizeEvent 400 216 s1)
     = Some (12, 40, 20, 70).
Proof. split; vm_compute; reflexivity. Qed.

(** The libvterm variant does not clamp either: its [resizeEvent] leaves
    the whole widget as it was. *)
Lemma libvterm_resizeEvent_keeps_widget (w h : Z) (s : LibVTerm.TerminalWidget) :
  LibVTerm.charWidth s <> 0 -> LibVTerm.charHeight s <> 0 ->
  LibVTerm.resizeEvent w h s = Ok s.
Proof.
  intros Hw Hh. unfold LibVTerm.resizeEvent.
  assert ((LibVTerm.charWidth s =? 0) || (LibVTerm.charHeight s =? 0) = false)
    as -> by lia.
  by destruct (negb _ || negb _).
Qed.

(** ** What every reachable widget satisfies *)

Lemma assignCell_shape (y x : Z) (c : Cell) (scr scr' : list (list Cell)) (nrows ncols : nat) :
  assignCell y x c scr = Ok scr' ->
  length scr = nrows -> Forall (fun r => length r = ncols) scr ->
  length scr' = nrows /\ Forall (fun r => length r = ncols) scr'.
Proof.
  unfold assignCell. intros E Hlen Hrows.
  destruct ((0 <=? y) && (0 <=? x)); [|discriminate].
  destruct (scr !! Z.to_nat y) as [row|] eqn:Hrow; [|discriminate].
  destruct (Z.to_nat x <? length row)%nat; [|discriminate].
  injection E as <-. split; [by rewrite length_insert|].
  apply Forall_insert; [exact Hrows|]. rewrite length_insert.
  exact (proj1 (Forall_lookup _ _) Hrows _ _ Hrow).
Qed.

Lemma handleByte_sound pf s b s' :
  sound s -> handleByte pf s b = Ok s' -> sound s'.
Proof.
  unfold sound, shaped. intros ((Hlen & Hrows & Hr0 & Hc0) & Hx & Hy).
  unfold handleByte.
  destruct (negb _ || Byte.eqb b ESC).
  { destruct (parseEscapeSequence_frame pf (escBuf s ++ [b]) (set_escBuf (escBuf s ++ [b]) s))
      as (Fs & Fr & Fc & Fx & Fy & _).
    cbn in Fs, Fr, Fc, Fx, Fy.
    destruct (isFinal b); intros [= <-]; cbn; rewrite ?Fs, ?Fr, ?Fc, ?Fx, ?Fy;
      repeat split; try done; lia. }
  destruct (Byte.eqb b NEWLINE).
  { intros [= <-]. unfold nextLine. cbn. rewrite qMin_spec.
    repeat split; try done; lia. }
  destruct ((cursorY s <? rows s) && (cursorX s <? cols s)).
  - destruct (assignCell _ _ _ _) as [scr|f] eqn:Ea; cbn; [|discriminate].
    destruct (assignCell_shape _ _ _ _ _ _ _ Ea Hlen Hrows) as [Hlen' Hrows'].
    destruct (cols s <=? cursorX s + 1) eqn:Hw; intros [= <-];
      unfold nextLine; cbn; rewrite ?qMin_spec; repeat split; try done; lia.
  - cbn. destruct (cols s <=? cursorX s + 1) eqn:Hw; intros [= <-];
      unfold nextLine; cbn; rewrite ?qMin_spec; repeat split; try done; lia.
Qed.

Lemma handleOutput_sound pf data : forall s s',
  sound s -> handleOutput pf s data = Ok s' -> sound s'.
Proof.
  induction data as [|b rest IH]; intros s s' Hs; cbn [handleOutput].
  - by intros [= <-].
  - destruct (handleByte pf s b) as [s1|f] eqn:E1; cbn [bind]; [|discriminate].
    apply IH. eapply handleByte_sound; eauto.
Qed.

(** Along every run of events: the grid has the shape that [rows] and
    [cols] say, the column of the cursor is not negative and its row is not
    below -1, the accumulator is empty or holds an unfinished escape, the
    font metrics are those of the constructor, and the current colour is
    still white. *)
Lemma reachable_invariant pf cw ch s :
  0 < cw -> 0 < ch ->
  reachable pf cw ch s ->
  sound s /\ pendingEscape (escBuf s) /\ currentColor s = white
  /\ charWidth s = cw /\ charHeight s = ch.
Proof.
  intros Hcw Hch. induction 1 as [|s e s' Hreach IH Hwf Hstep].
  - split; [|by repeat split; try left].
    split; [apply constructed_shaped | by split].
  - destruct IH as (Hs & Hp & Hc & Hw & Hh).
    destruct e as [data | w h]; cbn [step wellFormed] in Hstep, Hwf.
    + destruct (handleOutput_effect pf data s s' Hp Hstep)
        as (Hp' & Hc' & _ & _ & Hw' & Hh').
      split; [by eapply handleOutput_sound|].
      repeat split; [exact Hp' | congruence | congruence | congruence].
    + destruct Hwf as [H0w H0h].
      destruct (resizeEvent_ok w h s) as (s2 & E & Hx2 & Hy2 & _ & _ & Hw2 & Hh2 & Hsh2 & _);
        [lia | lia | exact H0w | exact H0h |].
      assert (s2 = s') as -> by congruence.
      destruct Hs as (_ & Hx & Hy).
      split; [split; [exact Hsh2 | split; lia]|].
      assert (escBuf s' = escBuf s /\ currentColor s' = currentColor s) as [He Hcol].
      { unfold resizeEvent in Hstep.
        destruct ((charWidth s =? 0) || (charHeight s =? 0)); [discriminate|].
        destruct (_ || _); [discriminate|]. by injection Hstep as <-. }
      rewrite He, Hcol. repeat split; [exact Hp | exact Hc | congruence | congruence].
Qed.

(** ** The byte after ESC *)

(** C8, as the code has it.  Right after an ESC, a byte other than ['[']
    ends the escape only if it lies in ['@'..'~']: the parser is then back
    in ground state.  Any other byte is appended to the accumulator and
    the parser stays in the escape until a byte in ['@'..'~'] arrives.
    Either way the byte changes nothing but the accumulator: it is not
    printed, and the grid, the cursor and the colour stay as they were. *)
Theorem byte_after_ESC pf s b :
  escBuf s = [ESC] -> b <> "["%byte ->
  handleByte pf s b
  = Ok (set_escBuf (if isFinal b then [] else [ESC; b]) s).
Proof.
  intros He _.
  rewrite handleByte_escape; rewrite ?He.
  - reflexivity.
  - right. exists []. by split.
  - by left.
Qed.

Lemma byte_after_ESC_witness :
  escBuf (set_escBuf [ESC] initial) = [ESC] /\ "7"%byte <> "["%byte
  /\ handleByte intended (set_escBuf [ESC] initial) "7"%byte
     = Ok (set_escBuf [ESC; "7"%byte] initial).
Proof.
  assert ("7"%byte <> "["%byte) as Hne by discriminate.
  split; [reflexivity|]. split; [exact Hne|].
  exact (byte_after_ESC intended (set_escBuf [ESC] initial) "7"%byte eq_refl Hne).
Defined.

(** C8, as the spec has it, fails: ESC 7 does not bring the parser back to
    ground state, the two bytes stay in the accumulator; the A that
    follows is taken as the end of the escape and is not printed. *)
Lemma ESC_7_stays_in_escape :
  observe escBuf (handleOutput intended initial [ESC; "7"]%byte)
  = Some [ESC; "7"]%byte
  /\ observe (fun s => (escBuf s, cellAt s 0 0, cursorY s, cursorX s))
       (handleOutput intended initial [ESC; "7"; "A"]%byte)
     = Some ([], Some defaultCell, 0, 0).
Proof. split; vm_compute; reflexivity. Qed.

(** ** A grid without rows *)

(** C9.  The guard before the write tests [cursorY < rows] and
    [cursorX < cols] only.  After a resize to a height of less than one
    text line [rows] is 0; a line feed then sets [cursorY] to
    [qMin(cursorY + 1, rows - 1)], which is -1, and the next printed byte
    passes the guard and indexes row -1 of the grid.  The same happens
    when the window is first resized back to 24 rows of 80 columns: the
    cursor is still in row -1. *)
Theorem write_above_the_grid (pf : Platform) :
  resizeEvent 800 10 initial = Ok noRows
  /\ handleOutput pf noRows [NEWLINE] = Ok aboveTheGrid
  /\ reachable pf 10 18 aboveTheGrid
  /\ handleOutput pf aboveTheGrid ["A"%byte] = Failed IndexOutOfRange
  /\ (let! s0 := resizeEvent 800 10 initial in
      handleOutput pf s0 [NEWLINE; "A"%byte])
     = Failed IndexOutOfRange
  /\ observe (fun s => (rows s, cols s, cursorY s, cursorX s))
       (resizeEvent 800 432 aboveTheGrid)
     = Some (24, 80, -1, 0)
  /\ (let! s2 := resizeEvent 800 432 aboveTheGrid in
      handleOutput pf s2 ["A"%byte])
     = Failed IndexOutOfRange.
Proof.
  assert (resizeEvent 800 10 initial = Ok noRows) as H1 by reflexivity.
  assert (handleOutput pf noRows [NEWLINE] = Ok aboveTheGrid) as H2
    by (by destruct pf as [[] []]).
  split; [exact H1|]. split; [exact H2|]. split.
  - apply (reachable_step pf 10 18 noRows (Output [NEWLINE])); [|exact I | exact H2].
    apply (reachable_step pf 10 18 initial (Resize 800 10));
      [apply reachable_constructed | by split | exact H1].
  - destruct pf as [[] []]; vm_compute; repeat split.
Qed.

(** ** Frame *)

(** C10.  Bytes handled outside an escape (the accumulator is empty and
    no byte is an ESC) never change [currentColor].  A dispatch changes
    [currentColor] at most: the grid, its size, the cursor and the
    accumulator are the same after [parseEscapeSequence] as before.  And a
    byte that belongs to an escape, the one that completes it included,
    leaves the grid and the cursor alone. *)
Theorem colour_and_grid_frame pf :
  (forall data s s',
      escBuf s = [] -> ~ In ESC data ->
      handleOutput pf s data = Ok s' ->
      currentColor s' = currentColor s)
  /\ (forall seq s,
         screen (parseEscapeSequence pf seq s) = screen s
         /\ rows (parseEscapeSequence pf seq s) = rows s
         /\ cols (parseEscapeSequence pf seq s) = cols s
         /\ cursorX (parseEscapeSequence pf seq s) = cursorX s
         /\ cursorY (parseEscapeSequence pf seq s) = cursorY s
         /\ escBuf (parseEscapeSequence pf seq s) = escBuf s)
  /\ (forall s b s',
         escBuf s <> [] \/ b = ESC ->
         handleByte pf s b = Ok s' ->
         screen s' = screen s /\ cursorX s' = cursorX s /\ cursorY s' = cursorY s).
Proof.
  split; [|split; [apply parseEscapeSequence_frame|]].
  - induction data as [|b rest IH]; intros s s' He Hesc; cbn [handleOutput].
    + by intros [= <-].
    + destruct (handleByte pf s b) as [s1|f] eqn:E1; cbn [bind]; [|discriminate].
      intros E2.
      destruct (handleByte_plain pf s b s1 He) as (Hc1 & He1 & _);
        [intros ->; apply Hesc; by left | exact E1 |].
      rewrite <- Hc1. apply (IH s1 s' He1); [|exact E2].
      intros Hin. apply Hesc. by right.
  - intros s b s' Hin. unfold handleByte.
    assert (negb match escBuf s with [] => true | _ => false end || Byte.eqb b ESC = true)
      as ->.
    { destruct Hin as [Hne | ->]; [by destruct (escBuf s) | apply orb_true_r]. }
    destruct (parseEscapeSequence_frame pf (escBuf s ++ [b]) (set_escBuf (escBuf s ++ [b]) s))
      as (Fs & _ & _ & Fx & Fy & _).
    destruct (isFinal b); intros [= <-]; cbn; by repeat split.
Qed.

Lemma colour_and_grid_frame_witness :
  escBuf initial = [] /\ ~ In ESC ["H"; "I"; NEWLINE]%byte
  /\ observe currentColor (handleOutput intended initial ["H"; "I"; NEWLINE]%byte)
     = Some (currentColor initial).
Proof.
  assert (~ In ESC ["H"; "I"; NEWLINE]%byte) as Hne.
  { intros [E | [E | [E | []]]]; discriminate E. }
  split; [reflexivity|]. split; [exact Hne|].
  destruct (handleOutput intended initial ["H"; "I"; NEWLINE]%byte) as [s'|f] eqn:E.
  - cbn. f_equal.
    exact (proj1 (colour_and_grid_frame intended) _ initial s' eq_refl Hne E).
  - discriminate E.
Defined.

(** * Further properties of the code *)

(** ** The output path *)

(** X1.  On a grid of the shape that [rows] and [cols] say, with at least
    one row, and from a cursor that is not negative, [handleOutput] writes
    no cell outside the grid, whatever the bytes: it returns without a
    fault, the grid keeps its shape and size, the cursor stays
    non-negative, and a cursor inside the grid stays inside. *)
Theorem handleOutput_stays_in_grid pf s data :
  shaped s -> 1 <= rows s -> 0 <= cursorX s -> 0 <= cursorY s ->
  exists s',
    handleOutput pf s data = Ok s'
    /\ shaped s' /\ rows s' = rows s /\ cols s' = cols s
    /\ 0 <= cursorX s' /\ 0 <= cursorY s'
    /\ (cursorInGrid s -> cursorInGrid s').
Proof. apply handleOutput_safe. Qed.

Lemma handleOutput_stays_in_grid_witness :
  shaped initial /\ 1 <= rows initial /\ 0 <= cursorX initial /\ 0 <= cursorY initial
  /\ exists s',
       handleOutput intended initial fill_last_row = Ok s'
       /\ shaped s' /\ cursorInGrid s'.
Proof.
  assert (1 <= rows initial) as Hr by discriminate.
  assert (0 <= cursorX initial) as Hx by discriminate.
  assert (0 <= cursorY initial) as Hy by discriminate.
  assert (cursorInGrid initial) as Hin by (by repeat split).
  split; [exact initial_shaped|]. split; [exact Hr|]. split; [exact Hx|].
  split; [exact Hy|].
  destruct (handleOutput_stays_in_grid intended initial fill_last_row
              initial_shaped Hr Hx Hy)
    as (s' & E & Hs & _ & _ & _ & _ & Hkeep).
  exists s'. exact (conj E (conj Hs (Hkeep Hin))).
Defined.

(** X2.  Whatever output and whatever resizes reach the widget after its
    constructor, the current colour is still white: the colour switch of
    [parseEscapeSequence] is never reached with a sequence that its
    pattern matches.  Along the way the grid keeps the shape that [rows]
    and [cols] say and the accumulator is empty or holds an unfinished
    escape. *)
Theorem colour_never_changes pf cw ch s :
  0 < cw -> 0 < ch ->
  reachable pf cw ch s ->
  currentColor s = white /\ shaped s /\ pendingEscape (escBuf s)
  /\ 0 <= cursorX s /\ -1 <= cursorY s.
Proof.
  intros Hcw Hch Hr.
  destruct (reachable_invariant pf cw ch s Hcw Hch Hr)
    as ((Hs & Hx & Hy) & Hp & Hc & _).
  exact (conj Hc (conj Hs (conj Hp (conj Hx Hy)))).
Qed.

Lemma colour_never_changes_witness :
  0 < 10 /\ 0 < 18 /\ reachable intended 10 18 noRows
  /\ currentColor noRows = white.
Proof.
  assert (0 < 10) as H1 by reflexivity.
  assert (0 < 18) as H2 by reflexivity.
  assert (reachable intended 10 18 noRows) as Hr.
  { apply (reachable_step intended 10 18 initial (Resize 800 10));
      [apply reachable_constructed | by split | reflexivity]. }
  split; [exact H1|]. split; [exact H2|]. split; [exact Hr|].
  exact (proj1 (colour_never_changes intended 10 18 noRows H1 H2 Hr)).
Defined.

(** X3.  From members that fit an [int] (cursor between -1 and
    [INT_MAX] - 1, [rows] and [cols] between 0 and [INT_MAX]),
    [handleOutput] leaves members that fit: [cursorX + 1], [cursorY + 1]
    and [rows - 1] never overflow, however long the output. *)
Theorem handleOutput_fitsInt pf data : forall s s',
  fitsInt s -> handleOutput pf s data = Ok s' -> fitsInt s'.
Proof.
  induction data as [|b rest IH]; intros s s' Hf; cbn [handleOutput].
  - by intros [= <-].
  - destruct (handleByte pf s b) as [s1|f] eqn:E1; cbn [bind]; [|discriminate].
    apply IH. eapply handleByte_fitsInt; eauto.
Qed.

Lemma handleOutput_fitsInt_witness :
  fitsInt initial
  /\ exists s', handleOutput intended initial red_HI_crlf = Ok s' /\ fitsInt s'.
Proof.
  assert (fitsInt initial) as Hf by (by repeat split).
  assert (1 <= rows initial) as Hr by discriminate.
  assert (0 <= cursorX initial) as Hx by discriminate.
  assert (0 <= cursorY initial) as Hy by discriminate.
  split; [exact Hf|].
  destruct (handleOutput_safe intended red_HI_crlf initial initial_shaped Hr Hx Hy)
    as (s' & E & _).
  exists s'. split; [exact E|].
  exact (handleOutput_fitsInt intended red_HI_crlf initial s' Hf E).
Defined.

Lemma handleByte_above pf s b s' :
  cursorY s < rows s ->
  handleByte pf s b = Ok s' ->
  cursorY s <= cursorY s' /\ cursorY s' < rows s' /\ rows s' = rows s
  /\ (forall y : nat, (y < Z.to_nat (cursorY s))%nat -> screen s' !! y = screen s !! y).
Proof.
  intros Hy. unfold handleByte.
  destruct (negb _ || Byte.eqb b ESC).
  { destruct (parseEscapeSequence_frame pf (escBuf s ++ [b]) (set_escBuf (escBuf s ++ [b]) s))
      as (Fs & Fr & _ & _ & Fy & _).
    cbn in Fs, Fr, Fy.
    destruct (isFinal b); intros [= <-]; cbn; rewrite ?Fs, ?Fr, ?Fy;
      repeat split; try done; lia. }
  destruct (Byte.eqb b NEWLINE).
  { intros [= <-]. unfold nextLine. cbn. rewrite qMin_spec.
    repeat split; try done; lia. }
  assert (forall scr,
             (if (cursorY s <? rows s) && (cursorX s <? cols s)
              then let! scr0 := assignCell (cursorY s) (cursorX s)
                                  (mkCell (QChar_of_uchar b) (currentColor s)) (screen s) in
                   Ok (set_screen scr0 s)
              else Ok s) = Ok scr ->
             cursorX scr = cursorX s /\ cursorY scr = cursorY s
             /\ rows scr = rows s /\ cols scr = cols s
             /\ (forall y : nat, (y < Z.to_nat (cursorY s))%nat ->
                                 screen scr !! y = screen s !! y)) as Hwrite.
  { intros scr. destruct ((cursorY s <? rows s) && (cursorX s <? cols s)).
    - unfold assignCell.
      destruct ((0 <=? cursorY s) && (0 <=? cursorX s)); [|discriminate].
      destruct (screen s !! Z.to_nat (cursorY s)) as [row|]; [|discriminate].
      destruct (Z.to_nat (cursorX s) <? length row)%nat; [|discriminate].
      intros [= <-]. cbn. repeat split; try done.
      intros y Hlt. apply list_lookup_insert_ne. lia.
    - intros [= <-]. by repeat split. }
  destruct (if (cursorY s <? rows s) && (cursorX s <? cols s) then _ else _)
    as [s1|f] eqn:E1; cbn [bind]; [|discriminate].
  destruct (Hwrite s1 eq_refl) as (Hx1 & Hy1 & Hr1 & Hc1 & Hrows1).
  cbn. destruct (cols s1 <=? cursorX s1 + 1); intros [= <-];
    unfold nextLine; cbn; rewrite ?qMin_spec; repeat split; try done; lia.
Qed.

(** X4.  Nothing in the output path moves the cursor up or scrolls: from
    a cursor row below [rows], after any output the cursor is in the same
    row or further down, and every row above the row where the cursor was
    is exactly what it was. *)
Theorem rows_above_the_cursor_are_final pf data : forall s s',
  cursorY s < rows s ->
  handleOutput pf s data = Ok s' ->
  cursorY s <= cursorY s'
  /\ (forall y : nat, (y < Z.to_nat (cursorY s))%nat -> screen s' !! y = screen s !! y).
Proof.
  induction data as [|b rest IH]; intros s s' Hy; cbn [handleOutput].
  - intros [= <-]. by split.
  - destruct (handleByte pf s b) as [s1|f] eqn:E1; cbn [bind]; [|discriminate].
    intros E2.
    destruct (handleByte_above pf s b s1 Hy E1) as (Hle & Hlt & Hr & Hsame).
    destruct (IH s1 s' Hlt E2) as (Hle' & Hsame').
    split; [lia|]. intros y Hylt. rewrite Hsame' by lia. by apply Hsame.
Qed.

Lemma rows_above_the_cursor_are_final_witness :
  exists s1 s2,
    handleOutput intended initial walk_to_20_70 = Ok s1
    /\ cursorY s1 < rows s1
    /\ handleOutput intended s1 red_HI_crlf = Ok s2
    /\ cursorY s1 <= cursorY s2
    /\ screen s2 !! 19%nat = screen s1 !! 19%nat.
Proof.
  assert (1 <= rows initial) as Hr by discriminate.
  assert (0 <= cursorX initial) as Hx by discriminate.
  assert (0 <= cursorY initial) as Hy by discriminate.
  destruct (handleOutput_safe intended walk_to_20_70 initial initial_shaped Hr Hx Hy)
    as (s1 & E1 & Hs1 & Hr1 & _ & Hx1 & Hy1 & _).
  assert (cursorY s1 = 20 /\ rows s1 = 24) as [Hc20 Hr24].
  { assert (observe (fun s => (cursorY s, rows s))
              (handleOutput intended initial walk_to_20_70) = Some (20, 24)) as H
      by (vm_compute; reflexivity).
    rewrite E1 in H. cbn [observe] in H. injection H as H1 H2.
    exact (conj H1 H2). }
  assert (cursorY s1 < rows s1) as Hlt by (rewrite Hc20, Hr24; reflexivity).
  assert (1 <= rows s1) as Hr1' by (rewrite Hr24; discriminate).
  destruct (handleOutput_safe intended red_HI_crlf s1 Hs1 Hr1' Hx1 Hy1)
    as (s2 & E2 & _).
  exists s1, s2.
  destruct (rows_above_the_cursor_are_final intended red_HI_crlf s1 s2 Hlt E2)
    as [Hle Hsame].
  split; [exact E1|]. split; [exact Hlt|]. split; [exact E2|].
  split; [exact Hle|]. apply Hsame. rewrite Hc20. cbn. lia.
Defined.

(** X5.  Only ESC and LF are special.  In ground state, any bytes other
    than those two (CR, TAB, BS and NUL included) that fit before the
    right edge are stored as they are in the next cells of the cursor's
    row, in the current colour; the cursor moves right by their number
    and nothing else changes. *)
Theorem control_bytes_are_stored_as_glyphs pf s data row :
  shaped s -> escBuf s = [] ->
  0 <= cursorY s < rows s -> 0 <= cursorX s ->
  cursorX s + Z.of_nat (length data) < cols s ->
  Forall (fun b => b <> ESC /\ b <> NEWLINE) data ->
  screen s !! Z.to_nat (cursorY s) = Some row ->
  handleOutput pf s data
  = Ok (printed s (cursorX s + Z.of_nat (length data))
          (take (Z.to_nat (cursorX s)) row
           ++ (glyph (currentColor s) <$> data)
           ++ drop (Z.to_nat (cursorX s) + length data) row)).
Proof. intros. by apply handleOutput_run. Qed.

Lemma control_bytes_are_stored_as_glyphs_witness :
  shaped initial /\ escBuf initial = []
  /\ 0 <= cursorY initial < rows initial /\ 0 <= cursorX initial
  /\ cursorX initial + Z.of_nat (length [x0d; x09; x08; x00]) < cols initial
  /\ Forall (fun b => b <> ESC /\ b <> NEWLINE) [x0d; x09; x08; x00]
  /\ screen initial !! Z.to_nat (cursorY initial)
     = Some (replicate 80 defaultCell)
  /\ handleOutput intended initial [x0d; x09; x08; x00]
     = Ok (printed initial 4
             ([glyph white x0d; glyph white x09; glyph white x08; glyph white x00]
              ++ replicate 76 defaultCell)).
Proof.
  assert (0 <= cursorY initial < rows initial) as Hy by (by split).
  assert (0 <= cursorX initial) as Hx by discriminate.
  assert (cursorX initial + Z.of_nat (length [x0d; x09; x08; x00]) < cols initial)
    as Hfit by reflexivity.
  assert (Forall (fun b => b <> ESC /\ b <> NEWLINE) [x0d; x09; x08; x00]) as Hp
    by (repeat constructor; discriminate).
  split; [exact initial_shaped|]. split; [reflexivity|]. split; [exact Hy|].
  split; [exact Hx|]. split; [exact Hfit|]. split; [exact Hp|].
  split; [reflexivity|].
  exact (control_bytes_are_stored_as_glyphs intended initial [x0d; x09; x08; x00]
           (replicate 80 defaultCell) initial_shaped eq_refl Hy Hx Hfit Hp eq_refl).
Defined.

(** X6.  In ground state, [k + 1] line feeds put the cursor in column 0
    of the row [k + 1] further down, or of the last row if the grid ends
    before that, and change nothing else: the grid does not scroll,
    however many line feeds arrive. *)
Theorem line_feeds_stop_at_the_last_row pf (k : nat) : forall s,
  escBuf s = [] ->
  handleOutput pf s (replicate (S k) NEWLINE)
  = Ok (set_cursor 0 (Z.min (cursorY s + Z.of_nat (S k)) (rows s - 1)) s).
Proof.
  induction k as [|k IH]; intros s He.
  - change (replicate 1 NEWLINE) with [NEWLINE].
    cbn [handleOutput]. rewrite handleByte_ground by (done || discriminate).
    change (Byte.eqb NEWLINE NEWLINE) with true. cbn iota. cbn [bind].
    unfold nextLine. by rewrite qMin_spec.
  - change (replicate (S (S k)) NEWLINE) with (NEWLINE :: replicate (S k) NEWLINE).
    cbn [handleOutput]. rewrite handleByte_ground by (done || discriminate).
    change (Byte.eqb NEWLINE NEWLINE) with true. cbn iota. cbn [bind].
    rewrite IH by exact He. unfold nextLine.
    cbn [set_cursor cursorY rows screen cols cursorX charWidth charHeight
         currentColor escBuf].
    rewrite qMin_spec. f_equal. unfold set_cursor. f_equal. lia.
Qed.

Lemma line_feeds_stop_at_the_last_row_witness :
  escBuf initial = []
  /\ handleOutput intended initial (replicate 100 NEWLINE)
     = Ok (set_cursor 0 23 initial).
Proof.
  split; [reflexivity|].
  exact (line_feeds_stop_at_the_last_row intended 99 initial eq_refl).
Defined.

(** X7.  [resizeEvent] does not move the cursor, so after a shrink it can
    be in a row that the grid no longer has.  What is printed there is
    lost: in ground state, with the cursor in a row at or below [rows],
    bytes other than ESC and LF that do not reach the right edge only
    move the cursor right; no cell takes them. *)
Theorem output_below_the_grid_is_lost pf data : forall s,
  escBuf s = [] -> rows s <= cursorY s ->
  cursorX s + Z.of_nat (length data) < cols s ->
  Forall (fun b => b <> ESC /\ b <> NEWLINE) data ->
  handleOutput pf s data
  = Ok (set_cursor (cursorX s + Z.of_nat (length data)) (cursorY s) s).
Proof.
  induction data as [|b rest IH]; intros s He Hy Hfit Hplain.
  - cbn [handleOutput length]. rewrite Z.add_0_r. f_equal. by destruct s.
  - apply Forall_cons in Hplain as [[Hesc Hnl] Hplain].
    cbn [length] in Hfit. cbn [handleOutput].
    rewrite handleByte_ground by assumption.
    apply byte_eqb_neq in Hnl. rewrite Hnl.
    assert ((cursorY s <? rows s) && (cursorX s <? cols s) = false) as -> by lia.
    cbn [bind set_cursor cols cursorX cursorY].
    assert ((cols s <=? cursorX s + 1) = false) as -> by lia.
    cbn [bind]. rewrite IH by (cbn; first [done | lia]).
    unfold set_cursor. cbn. f_equal. f_equal. lia.
Qed.

Lemma output_below_the_grid_is_lost_witness :
  escBuf noRows = [] /\ rows noRows <= cursorY noRows
  /\ cursorX noRows + Z.of_nat (length ["H"; "I"]%byte) < cols noRows
  /\ Forall (fun b => b <> ESC /\ b <> NEWLINE) ["H"; "I"]%byte
  /\ handleOutput intended noRows ["H"; "I"]%byte = Ok (set_cursor 2 0 noRows).
Proof.
  assert (rows noRows <= cursorY noRows) as Hy by discriminate.
  assert (cursorX noRows + Z.of_nat (length ["H"; "I"]%byte) < cols noRows)
    as Hfit by reflexivity.
  assert (Forall (fun b => b <> ESC /\ b <> NEWLINE) ["H"; "I"]%byte) as Hp
    by (repeat constructor; discriminate).
  split; [reflexivity|]. split; [exact Hy|]. split; [exact Hfit|].
  split; [exact Hp|].
  exact (output_below_the_grid_is_lost intended ["H"; "I"]%byte noRows
           eq_refl Hy Hfit Hp).
Defined.

(** ** [parseEscapeSequence] on its own *)

(** X8.  Where the compiler keeps the letter [d] for the unknown escape
    [\d], [parseEscapeSequence] changes nothing, whatever sequence it is
    given: the pattern then matches runs of the letter d only, and
    [toInt] reads such a run as 0, which is no case of the switch. *)
Theorem letter_d_pattern_sets_no_colour (qt : QtMajor) (seq : list byte)
    (s : TerminalWidget) :
  parseEscapeSequence (mkPlatform LetterD qt) seq s = s.
Proof.
  unfold parseEscapeSequence.
  destruct (startsWithCsi seq); [|reflexivity].
  destruct (regexMatch _ _) as [cap|] eqn:E; [|reflexivity].
  apply regexMatch_sound in E as (before & after & _ & ps & rest & _ & Hne & Hd & _).
  destruct cap as [|b cap]; [done|].
  apply Forall_cons in Hd as [Hb _]. cbn in Hb.
  apply Byte.byte_dec_bl in Hb. subst b. reflexivity.
Qed.

Lemma classD_nonzero pf b : classD pf b = true -> b <> x00.
Proof. intros H ->. by destruct pf as [[] ?]. Qed.

Lemma moreParams_nonzero pf ps :
  moreParams pf ps -> Forall (fun b => b <> x00) ps.
Proof.
  induction 1 as [|d rest Hne Hd Hrest IH]; [constructor|].
  constructor; [discriminate|]. apply Forall_app. split; [|exact IH].
  eapply Forall_impl; [exact Hd|]. intros b. apply (classD_nonzero pf).
Qed.

Lemma untilZero_app pre l :
  Forall (fun b => b <> x00) pre -> untilZero (pre ++ l) = pre ++ untilZero l.
Proof.
  induction 1 as [|b pre Hb Hpre IH]; [reflexivity|].
  cbn [app untilZero]. apply byte_eqb_neq in Hb. by rewrite Hb, IH.
Qed.

(** The search on a text that starts with a match finds the group of that
    match, also after the conversion that stops at a zero byte. *)
Lemma regexMatch_at_head pf cap ps rest :
  cap <> [] -> Forall (fun b => classD pf b = true) cap -> moreParams pf ps ->
  regexMatch pf (toQString pf (ESC :: LBRACKET :: cap ++ ps ++ LOWER_M :: rest))
  = Some cap.
Proof.
  intros Hne Hd Hps.
  assert (exists rest',
             toQString pf (ESC :: LBRACKET :: cap ++ ps ++ LOWER_M :: rest)
             = ESC :: LBRACKET :: cap ++ ps ++ LOWER_M :: rest') as [rest' ->].
  { unfold toQString. destruct (qtMajor pf); [|by exists rest].
    exists (untilZero rest).
    change (ESC :: LBRACKET :: cap ++ ps ++ LOWER_M :: rest)
      with ([ESC; LBRACKET] ++ cap ++ ps ++ [LOWER_M] ++ rest).
    assert (Forall (fun b => b <> x00) cap) as Hcap
      by (eapply Forall_impl; [exact Hd|]; intros b; apply (classD_nonzero pf)).
    rewrite (untilZero_app [ESC; LBRACKET]) by (repeat constructor; discriminate).
    rewrite (untilZero_app cap) by exact Hcap.
    rewrite (untilZero_app ps) by exact (moreParams_nonzero pf ps Hps).
    rewrite (untilZero_app [LOWER_M]) by (repeat constructor; discriminate).
    reflexivity. }
  cbn [regexMatch].
  assert (matchHere pf (ESC :: LBRACKET :: cap ++ ps ++ LOWER_M :: rest') = Some cap)
    as -> by (apply matchHere_spec; by exists ps, rest').
  reflexivity.
Qed.

(** X9.  Only the first parameter of a sequence counts.  When the
    sequence starts with ESC [, a first parameter, any further
    parameters and an [m], the effect is that of the sequence with the
    first parameter alone: the further parameters and whatever follows the
    [m] are ignored. *)
Theorem only_the_first_parameter_counts pf cap ps rest s :
  cap <> [] -> Forall (fun b => classD pf b = true) cap -> moreParams pf ps ->
  parseEscapeSequence pf (ESC :: LBRACKET :: cap ++ ps ++ LOWER_M :: rest) s
  = parseEscapeSequence pf (ESC :: LBRACKET :: cap ++ [LOWER_M]) s.
Proof.
  intros Hne Hd Hps. unfold parseEscapeSequence.
  change (startsWithCsi (ESC :: LBRACKET :: cap ++ ps ++ LOWER_M :: rest)) with true.
  change (startsWithCsi (ESC :: LBRACKET :: cap ++ [LOWER_M])) with true.
  cbn iota.
  rewrite (regexMatch_at_head pf cap ps rest Hne Hd Hps).
  change (cap ++ [LOWER_M]) with (cap ++ [] ++ LOWER_M :: []).
  rewrite (regexMatch_at_head pf cap [] [] Hne Hd (moreParams_nil pf)).
  reflexivity.
Qed.

Lemma only_the_first_parameter_counts_witness :
  ["3"; "1"]%byte <> []
  /\ Forall (fun b => classD intended b = true) ["3"; "1"]%byte
  /\ moreParams intended [";"; "4"; "2"]%byte
  /\ parseEscapeSequence intended
       ([ESC; "["; "3"; "1"; ";"; "4"; "2"; "m"; "x"; x00; "y"]%byte) initial
     = parseEscapeSequence intended sgr_red initial
  /\ currentColor (parseEscapeSequence intended sgr_red initial) = red.
Proof.
  assert (["3"; "1"]%byte <> []) as Hne by discriminate.
  assert (Forall (fun b => classD intended b = true) ["3"; "1"]%byte) as Hd
    by (repeat constructor).
  assert (moreParams intended [";"; "4"; "2"]%byte) as Hps.
  { apply (moreParams_cons intended ["4"; "2"]%byte []);
      [discriminate | repeat constructor | constructor]. }
  split; [exact Hne|]. split; [exact Hd|]. split; [exact Hps|].
  split; [|reflexivity].
  exact (only_the_first_parameter_counts intended ["3"; "1"]%byte [";"; "4"; "2"]%byte
           ["x"; x00; "y"]%byte initial Hne Hd Hps).
Defined.

(** ** Resizing *)

Lemma fmap_resize_same (n : nat) (l : list (list Cell)) :
  Forall (fun r => length r = n) l -> resize n defaultCell <$> l = l.
Proof.
  induction 1 as [|r l Hr Hl IH]; [reflexivity|].
  cbn [fmap list_fmap]. f_equal; [by apply resize_all_alt | exact IH].
Qed.

(** X10.  A resize event that gives the size the grid already has (the
    window changed by less than one character cell) leaves a widget whose
    grid has the shape of [rows] and [cols] exactly as it was: no cell is
    lost or blanked. *)
Theorem resize_to_the_same_size (w h : Z) (s : TerminalWidget) :
  shaped s -> charWidth s <> 0 -> charHeight s <> 0 ->
  Z.quot w (charWidth s) = cols s -> Z.quot h (charHeight s) = rows s ->
  resizeEvent w h s = Ok s.
Proof.
  intros (Hlen & Hrows & Hr0 & Hc0) Hw Hh Hc Hr. unfold resizeEvent.
  assert ((charWidth s =? 0) || (charHeight s =? 0) = false) as -> by lia.
  rewrite Hc, Hr.
  assert ((rows s <? 0) || (cols s <? 0) = false) as -> by lia.
  rewrite (resize_all_alt (screen s)) by (symmetry; exact Hlen).
  rewrite fmap_resize_same by exact Hrows.
  f_equal. by destruct s.
Qed.

Lemma resize_to_the_same_size_witness :
  shaped initial /\ charWidth initial <> 0 /\ charHeight initial <> 0
  /\ Z.quot 809 (charWidth initial) = cols initial
  /\ Z.quot 440 (charHeight initial) = rows initial
  /\ resizeEvent 809 440 initial = Ok initial.
Proof.
  assert (charWidth initial <> 0) as Hw by discriminate.
  assert (charHeight initial <> 0) as Hh by discriminate.
  split; [exact initial_shaped|]. split; [exact Hw|]. split; [exact Hh|].
  split; [reflexivity|]. split; [reflexivity|].
  exact (resize_to_the_same_size 809 440 initial initial_shaped Hw Hh eq_refl eq_refl).
Defined.

Lemma cellAt_outside s (y x : nat) :
  shaped s ->
  (Z.to_nat (rows s) <= y)%nat \/ (Z.to_nat (cols s) <= x)%nat ->
  cellAt s y x = None.
Proof.
  intros (Hlen & Hrows & _) Hout. unfold cellAt.
  destruct (screen s !! y) as [row|] eqn:Hrow; [|reflexivity].
  assert (length row = Z.to_nat (cols s)) as Hrl
    by exact (proj1 (Forall_lookup _ _) Hrows _ _ Hrow).
  apply lookup_lt_Some in Hrow.
  apply lookup_ge_None_2. lia.
Qed.

(** X11.  Shrinking loses what was outside.  After a resize and a second
    resize (to any size, the first one included), a cell of the final grid
    holds what it held at the start only if it also lay inside the grid in
    between; every other cell is blank. *)
Theorem resize_twice_keeps_the_common_part (w1 h1 w2 h2 : Z) (s : TerminalWidget) :
  0 < charWidth s -> 0 < charHeight s ->
  0 <= w1 -> 0 <= h1 -> 0 <= w2 -> 0 <= h2 ->
  exists s1 s2,
    resizeEvent w1 h1 s = Ok s1 /\ resizeEvent w2 h2 s1 = Ok s2
    /\ forall y x : nat,
         (y < Z.to_nat (rows s2))%nat -> (x < Z.to_nat (cols s2))%nat ->
         cellAt s2 y x
         = Some (if (y <? Z.to_nat (rows s1))%nat && (x <? Z.to_nat (cols s1))%nat
                 then default defaultCell (cellAt s y x)
                 else defaultCell).
Proof.
  intros Hw Hh H0w1 H0h1 H0w2 H0h2.
  destruct (resizeEvent_ok w1 h1 s Hw Hh H0w1 H0h1)
    as (s1 & E1 & _ & _ & _ & _ & Hw1 & Hh1 & Hs1 & Hcell1).
  destruct (resizeEvent_ok w2 h2 s1) as (s2 & E2 & _ & _ & _ & _ & _ & _ & _ & Hcell2);
    [lia | lia | exact H0w2 | exact H0h2 |].
  exists s1, s2. split; [exact E1|]. split; [exact E2|].
  intros y x Hy Hx. rewrite (Hcell2 y x Hy Hx). f_equal.
  destruct (y <? Z.to_nat (rows s1))%nat eqn:Ey;
    [destruct (x <? Z.to_nat (cols s1))%nat eqn:Ex|]; cbn [andb].
  - apply Nat.ltb_lt in Ey, Ex. by rewrite (Hcell1 y x Ey Ex).
  - apply Nat.ltb_ge in Ex. by rewrite (cellAt_outside s1 y x Hs1) by (right; exact Ex).
  - apply Nat.ltb_ge in Ey. by rewrite (cellAt_outside s1 y x Hs1) by (left; exact Ey).
Qed.

Lemma resize_twice_keeps_the_common_part_witness :
  0 < charWidth initial /\ 0 < charHeight initial
  /\ 0 <= 400 /\ 0 <= 216 /\ 0 <= 800 /\ 0 <= 432
  /\ exists s1 s2,
       resizeEvent 400 216 initial = Ok s1 /\ resizeEvent 800 432 s1 = Ok s2.
Proof.
  assert (0 < charWidth initial) as Hw by reflexivity.
  assert (0 < charHeight initial) as Hh by reflexivity.
  assert (0 <= 400) as H1 by discriminate.
  assert (0 <= 216) as H2 by discriminate.
  assert (0 <= 800) as H3 by discriminate.
  assert (0 <= 432) as H4 by discriminate.
  split; [exact Hw|]. split; [exact Hh|]. split; [exact H1|]. split; [exact H2|].
  split; [exact H3|]. split; [exact H4|].
  destruct (resize_twice_keeps_the_common_part 400 216 800 432 initial Hw Hh H1 H2 H3 H4)
    as (s1 & s2 & E1 & E2 & _).
  exists s1, s2. exact (conj E1 E2).
Defined.

(** ** Reading from the pty *)

(** X12.  How the output of the child is cut into reads does not matter.
    With an open pty, a run of timer calls leaves the widget that one
    [handleOutput] on all the bytes read leaves; calls that read nothing or
    failed ([n <= 0]) do not disturb an escape sequence that is cut by
    them.  With no pty ([masterFd < 0]) the widget is never touched. *)
Theorem poll_is_one_handleOutput pf masterFd reads : forall s,
  (0 <= masterFd -> poll pf masterFd reads s = handleOutput pf s (bytesRead reads))
  /\ (masterFd < 0 -> poll pf masterFd reads s = Ok s).
Proof.
  induction reads as [|[n buf] rest IH]; intros s; [by split|].
  cbn [poll bytesRead]. unfold readFromPty. split; intros Hfd.
  - assert ((masterFd <? 0) = false) as -> by lia.
    rewrite handleOutput_app.
    destruct (0 <? n); cbn [handleOutput bind].
    + destruct (handleOutput pf s (take (Z.to_nat n) buf)) as [s1|f]; cbn [bind];
        [by apply IH | reflexivity].
    + by apply IH.
  - assert ((masterFd <? 0) = true) as -> by lia. cbn [bind]. by apply IH.
Qed.

Lemma poll_is_one_handleOutput_witness :
  0 <= 3
  /\ poll intended 3 [(2, [ESC; "["; "?"]%byte); (-1, []); (0, ["x"]%byte);
                      (3, ["2"; "J"; "A"]%byte)] initial
     = handleOutput intended initial [ESC; "["; "2"; "J"; "A"]%byte.
Proof.
  assert (0 <= 3) as H by discriminate.
  split; [exact H|].
  exact (proj1 (poll_is_one_handleOutput intended 3
                  [(2, [ESC; "["; "?"]%byte); (-1, []); (0, ["x"]%byte);
                   (3, ["2"; "J"; "A"]%byte)] initial) H).
Defined.

(** ** Keys and mouse *)

Lemma uchar_charOfInt z : uchar (charOfInt z) = z mod 256.
Proof.
  unfold uchar, charOfInt.
  pose proof (Z.mod_pos_bound z 256 eq_refl) as Hb.
  destruct (Byte.of_N (Z.to_N (z mod 256))) as [b|] eqn:E.
  - apply Byte.to_of_N in E. rewrite E. apply Z2N.id. lia.
  - apply Byte.of_N_None_iff in E. lia.
Qed.

Lemma control_letter_input (e : QKeyEvent) :
  controlModifier e = true -> Qt.Key_A <= key e <= Qt.Key_Z ->
  keyInput e = [charOfInt (key e - 64)]
  /\ LibVTerm.keyInput e = [charOfInt (key e - 64)].
Proof.
  unfold Qt.Key_A, Qt.Key_Z. intros Hc Hk. split.
  - unfold keyInput. rewrite Hc. unfold Qt.Key_A, Qt.Key_Z.
    assert ((65 <=? key e) && (key e <=? 90) = true) as Hr by lia.
    cbn [andb]. rewrite Hr. do 2 f_equal. lia.
  - unfold LibVTerm.keyInput.
    unfold Qt.Key_Backspace, Qt.Key_Return, Qt.Key_Left, Qt.Key_Right, Qt.Key_Up,
      Qt.Key_Down, Qt.Key_Delete, Qt.Key_Home, Qt.Key_End, Qt.Key_PageUp,
      Qt.Key_PageDown.
    repeat match goal with
           | |- context [key e =? ?k] =>
               replace (key e =? k) with false by (symmetry; apply Z.eqb_neq; lia)
           end.
    rewrite Hc. cbn zeta. rewrite (Z.mod_small (key e) 256) by lia.
    assert ((64 <=? key e) && (key e <=? 95) = true) as -> by lia.
    reflexivity.
Qed.

(** X13.  With Ctrl held and a pty open, a letter key writes one byte,
    the control character of the letter: its code minus 64, from 1 for A
    to 26 for Z, whatever text the event carries.  The variant on
    libvterm writes the same byte, by another computation. *)
Theorem control_letters_send_control_characters (masterFd : Z) (e : QKeyEvent) :
  0 <= masterFd ->
  controlModifier e = true -> Qt.Key_A <= key e <= Qt.Key_Z ->
  keyPressEvent masterFd e = Some [charOfInt (key e - 64)]
  /\ LibVTerm.keyPressEvent masterFd e = Some [charOfInt (key e - 64)]
  /\ uchar (charOfInt (key e - 64)) = key e - 64
  /\ 1 <= key e - 64 <= 26.
Proof.
  intros Hfd Hc Hk.
  destruct (control_letter_input e Hc Hk) as [Hmain Hlib].
  unfold keyPressEvent, LibVTerm.keyPressEvent. rewrite Hmain, Hlib.
  assert ((0 <=? masterFd) = true) as -> by lia.
  unfold Qt.Key_A, Qt.Key_Z in Hk.
  split; [reflexivity|]. split; [reflexivity|]. split; [|lia].
  rewrite uchar_charOfInt. apply Z.mod_small. lia.
Qed.

Lemma control_letters_send_control_characters_witness :
  0 <= 3
  /\ controlModifier (mkKeyEvent 67 true ["c"%byte]) = true
  /\ Qt.Key_A <= key (mkKeyEvent 67 true ["c"%byte]) <= Qt.Key_Z
  /\ keyPressEvent 3 (mkKeyEvent 67 true ["c"%byte]) = Some [x03]
  /\ LibVTerm.keyPressEvent 3 (mkKeyEvent 67 true ["c"%byte]) = Some [x03].
Proof.
  assert (0 <= 3) as Hfd by discriminate.
  assert (Qt.Key_A <= key (mkKeyEvent 67 true ["c"%byte]) <= Qt.Key_Z) as Hk
    by (split; discriminate).
  destruct (control_letters_send_control_characters 3 (mkKeyEvent 67 true ["c"%byte])
              Hfd eq_refl Hk) as (Hmain & Hlib & _).
  split; [exact Hfd|]. split; [reflexivity|]. split; [exact Hk|].
  split; [exact Hmain | exact Hlib].
Defined.

(** X14.  The three variants agree on Backspace, Return and the four
    arrows: with a pty open each writes the same bytes for these keys,
    whatever modifiers are held and whatever text the event carries. *)
Theorem special_keys_agree (masterFd : Z) (e : QKeyEvent) :
  0 <= masterFd ->
  In (key e) [Qt.Key_Backspace; Qt.Key_Return; Qt.Key_Left; Qt.Key_Right;
              Qt.Key_Up; Qt.Key_Down] ->
  keyPressEvent masterFd e = TMT.keyPressEvent e
  /\ LibVTerm.keyPressEvent masterFd e = TMT.keyPressEvent e
  /\ TMT.keyPressEvent e = TMT.keyPressEvent (mkKeyEvent (key e) false []).
Proof.
  intros Hfd. unfold keyPressEvent, LibVTerm.keyPressEvent, TMT.keyPressEvent.
  assert ((0 <=? masterFd) = true) as -> by lia.
  destruct e as [k c t]. cbn [key].
  intros [<- | [<- | [<- | [<- | [<- | [<- | []]]]]]];
    destruct c; repeat split; reflexivity.
Qed.

Lemma special_keys_agree_witness :
  0 <= 3
  /\ In (key (mkKeyEvent Qt.Key_Up true ["x"%byte]))
       [Qt.Key_Backspace; Qt.Key_Return; Qt.Key_Left; Qt.Key_Right;
        Qt.Key_Up; Qt.Key_Down]
  /\ keyPressEvent 3 (mkKeyEvent Qt.Key_Up true ["x"%byte])
     = Some [ESC; "["; "A"]%byte
  /\ LibVTerm.keyPressEvent 3 (mkKeyEvent Qt.Key_Up true ["x"%byte])
     = Some [ESC; "["; "A"]%byte.
Proof.
  assert (0 <= 3) as Hfd by discriminate.
  assert (In (key (mkKeyEvent Qt.Key_Up true ["x"%byte]))
            [Qt.Key_Backspace; Qt.Key_Return; Qt.Key_Left; Qt.Key_Right;
             Qt.Key_Up; Qt.Key_Down]) as Hin
    by (right; right; right; right; left; reflexivity).
  destruct (special_keys_agree 3 (mkKeyEvent Qt.Key_Up true ["x"%byte]) Hfd Hin)
    as (Hmain & Hlib & _).
  split; [exact Hfd|]. split; [exact Hin|]. split; [exact Hmain | exact Hlib].
Defined.

(** X15.  A mouse press is reported as the six bytes ESC [ M, a space
    for the left button, and the column and the row of the cell under the
    pointer, each added to 32 and cut to one byte.  So for cells below
    column 224 and row 224 the receiver gets the cell back by taking 32
    off; from 224 on the byte wraps around. *)
Theorem mouse_report_round_trip (masterFd ex ey : Z) (s : TerminalWidget) :
  0 < charWidth s -> 0 < charHeight s -> 0 <= masterFd -> 0 <= ex -> 0 <= ey ->
  exists bx by_,
    mousePressEvent masterFd ex ey s = Ok (Some [ESC; "["; "M"; " "; bx; by_]%byte)
    /\ uchar bx = (32 + Z.quot ex (charWidth s)) mod 256
    /\ uchar by_ = (32 + Z.quot ey (charHeight s)) mod 256
    /\ (Z.quot ex (charWidth s) < 224 -> uchar bx - 32 = Z.quot ex (charWidth s))
    /\ (Z.quot ey (charHeight s) < 224 -> uchar by_ - 32 = Z.quot ey (charHeight s)).
Proof.
  intros Hw Hh Hfd Hx Hy.
  pose proof (Z.quot_pos ex (charWidth s) Hx Hw) as Hqx.
  pose proof (Z.quot_pos ey (charHeight s) Hy Hh) as Hqy.
  exists (charOfInt (32 + Z.quot ex (charWidth s))),
         (charOfInt (32 + Z.quot ey (charHeight s))).
  split; [|rewrite !uchar_charOfInt; repeat split; try done].
  - unfold mousePressEvent.
    assert ((charWidth s =? 0) = false) as -> by lia.
    assert ((charHeight s =? 0) = false) as -> by lia.
    assert ((0 <=? masterFd) = true) as -> by lia.
    reflexivity.
  - intros Hlt. rewrite Z.mod_small by lia. lia.
  - intros Hlt. rewrite Z.mod_small by lia. lia.
Qed.

Lemma mouse_report_round_trip_witness :
  0 < charWidth initial /\ 0 < charHeight initial /\ 0 <= 3 /\ 0 <= 705 /\ 0 <= 95
  /\ exists bx by_,
       mousePressEvent 3 705 95 initial = Ok (Some [ESC; "["; "M"; " "; bx; by_]%byte)
       /\ uchar bx - 32 = 70 /\ uchar by_ - 32 = 5.
Proof.
  assert (0 < charWidth initial) as Hw by reflexivity.
  assert (0 < charHeight initial) as Hh by reflexivity.
  assert (0 <= 3) as H1 by discriminate.
  assert (0 <= 705) as H2 by discriminate.
  assert (0 <= 95) as H3 by discriminate.
  split; [exact Hw|]. split; [exact Hh|]. split; [exact H1|]. split; [exact H2|].
  split; [exact H3|].
  destruct (mouse_report_round_trip 3 705 95 initial Hw Hh H1 H2 H3)
    as (bx & by_ & E & _ & _ & Hcol & Hrow).
  exists bx, by_. split; [exact E|]. split; [exact (Hcol eq_refl) | exact (Hrow eq_refl)].
Defined.

(** ** Painting *)

Lemma forLoop_ok (body : Z -> Result (list PaintOp)) (n : nat) : forall i,
  (forall k, (k < n)%nat -> exists ops, body (i + Z.of_nat k) = Ok ops) ->
  exists all,
    forLoop i n body = Ok all
    /\ forall k ops, (k < n)%nat -> body (i + Z.of_nat k) = Ok ops ->
                     exists pre post, all = pre ++ ops ++ post.
Proof.
  induction n as [|n IH]; intros i Hbody.
  - exists []. split; [reflexivity|]. intros k ops Hk. lia.
  - destruct (Hbody 0%nat ltac:(lia)) as [ops0 E0].
    rewrite Z.add_0_r in E0.
    destruct (IH (i + 1)) as (rest & Erest & Hrest).
    { intros k Hk. destruct (Hbody (S k) ltac:(lia)) as [ops E].
      exists ops. rewrite <- E. f_equal. lia. }
    exists (ops0 ++ rest). cbn [forLoop]. rewrite E0, Erest. cbn [bind].
    split; [reflexivity|].
    intros [|k] ops Hk E.
    + rewrite Z.add_0_r in E. assert (ops = ops0) as -> by congruence.
      by exists [], rest.
    + destruct (Hrest k ops ltac:(lia)) as (pre & post & ->).
      { rewrite <- E. f_equal. lia. }
      exists (ops0 ++ pre), post. by rewrite <- app_assoc.
Qed.

Lemma cellRef_ok s (y x : nat) :
  shaped s -> (y < Z.to_nat (rows s))%nat -> (x < Z.to_nat (cols s))%nat ->
  exists cell,
    cellRef (Z.of_nat y) (Z.of_nat x) (screen s) = Ok cell /\ cellAt s y x = Some cell.
Proof.
  intros (Hlen & Hrows & _) Hy Hx. unfold cellRef, cellAt.
  assert ((0 <=? Z.of_nat y) && (0 <=? Z.of_nat x) = true) as -> by lia.
  rewrite !Nat2Z.id.
  destruct (lookup_lt_is_Some_2 (screen s) y) as [row Hrow]; [lia|].
  assert (length row = Z.to_nat (cols s)) as Hrl
    by exact (proj1 (Forall_lookup _ _) Hrows _ _ Hrow).
  destruct (lookup_lt_is_Some_2 row x) as [cell Hcell]; [lia|].
  exists cell. by rewrite Hrow, Hcell.
Qed.

(** The two loops over the grid: no read leaves it, and what is asked of
    the painter for each cell is in the result. *)
Lemma paint_cells_ok baseline s :
  shaped s ->
  exists cells,
    forLoop 0 (Z.to_nat (rows s))
      (fun y => forLoop 0 (Z.to_nat (cols s)) (fun x => paintCell baseline s y x))
    = Ok cells
    /\ forall (y x : nat) cell,
         cellAt s y x = Some cell -> (ch cell =? 0)%N = false ->
         exists pre post,
           cells = pre ++ [SetPen (color cell);
                           DrawText (Z.of_nat x * charWidth s)
                             ((Z.of_nat y + 1) * charHeight s - baseline) (ch cell)]
                       ++ post.
Proof.
  intros Hs.
  assert (forall y : nat, (y < Z.to_nat (rows s))%nat ->
            exists rowops,
              forLoop 0 (Z.to_nat (cols s))
                (fun x => paintCell baseline s (Z.of_nat y) x) = Ok rowops
              /\ forall (x : nat) cell,
                   cellAt s y x = Some cell -> (ch cell =? 0)%N = false ->
                   exists pre post,
                     rowops = pre ++ [SetPen (color cell);
                                      DrawText (Z.of_nat x * charWidth s)
                                        ((Z.of_nat y + 1) * charHeight s - baseline)
                                        (ch cell)] ++ post) as Hrow.
  { intros y Hy.
    destruct (forLoop_ok (fun x => paintCell baseline s (Z.of_nat y) x)
                (Z.to_nat (cols s)) 0) as (rowops & E & Hin).
    { intros k Hk. destruct (cellRef_ok s y k Hs Hy Hk) as (cell & Ec & _).
      cbn beta. rewrite Z.add_0_l. unfold paintCell. rewrite Ec. cbn [bind].
      destruct (ch cell =? 0)%N; eauto. }
    exists rowops. split; [exact E|].
    intros x cell Hcell Hnz.
    assert (x < Z.to_nat (cols s))%nat as Hx.
    { destruct (decide (x < Z.to_nat (cols s))%nat) as [|Hge]; [done|].
      rewrite (cellAt_outside s y x Hs) in Hcell by (right; lia). discriminate. }
    destruct (cellRef_ok s y x Hs Hy Hx) as (cell' & Ec & Hc').
    assert (cell' = cell) as -> by congruence.
    apply (Hin x); [exact Hx|].
    cbn beta. rewrite Z.add_0_l. unfold paintCell. rewrite Ec. cbn [bind].
    by rewrite Hnz. }
  destruct (forLoop_ok
              (fun y => forLoop 0 (Z.to_nat (cols s)) (fun x => paintCell baseline s y x))
              (Z.to_nat (rows s)) 0) as (cells & E & Hin).
  { intros k Hk. destruct (Hrow k Hk) as (rowops & Er & _).
    exists rowops. cbn beta. rewrite Z.add_0_l. exact Er. }
  exists cells. split; [exact E|].
  intros y x cell Hcell Hnz.
  assert (y < Z.to_nat (rows s))%nat as Hy.
  { destruct (decide (y < Z.to_nat (rows s))%nat) as [|Hge]; [done|].
    rewrite (cellAt_outside s y x Hs) in Hcell by (left; lia). discriminate. }
  destruct (Hrow y Hy) as (rowops & Er & Hdraw).
  destruct (Hin y rowops Hy) as (pre2 & post2 & ->).
  { cbn beta. rewrite Z.add_0_l. exact Er. }
  destruct (Hdraw x cell Hcell Hnz) as (pre1 & post1 & ->).
  exists (pre2 ++ pre1), (post1 ++ post2).
  by rewrite <- !app_assoc.
Qed.

Lemma paintCursor_ok baseline s :
  shaped s -> 0 <= cursorX s -> 0 <= cursorY s ->
  exists ops, paintCursor baseline s = Ok ops.
Proof.
  intros Hs Hx Hy. unfold paintCursor.
  destruct ((cursorY s <? rows s) && (cursorX s <? cols s)) eqn:Hg;
    [|cbn [bind]; eauto].
  destruct (cellRef_ok s (Z.to_nat (cursorY s)) (Z.to_nat (cursorX s)) Hs)
    as (cell & Ec & _); [lia | lia |].
  rewrite !Z2Nat.id in Ec by lia. rewrite Ec. cbn [bind]. eauto.
Qed.

(** X16.  On a grid of the shape that [rows] and [cols] say and with a
    cursor that is not negative, [paintEvent] reads no cell outside the
    grid, whether the cursor blinks on or off and also when the cursor is
    beyond the right or the lower edge; it starts by filling the whole
    widget in black. *)
Theorem paintEvent_reads_inside_the_grid (width height baseline : Z)
    (cursorVisible : bool) (s : TerminalWidget) :
  shaped s -> 0 <= cursorX s -> 0 <= cursorY s ->
  exists ops,
    paintEvent width height baseline cursorVisible s
    = Ok (FillRect 0 0 width height black :: ops).
Proof.
  intros Hs Hx Hy. unfold paintEvent.
  destruct (paint_cells_ok baseline s Hs) as (cells & -> & _). cbn [bind].
  destruct cursorVisible; [|cbn [bind]; eauto].
  destruct (paintCursor_ok baseline s Hs Hx Hy) as (ops & ->). cbn [bind]. eauto.
Qed.

Lemma paintEvent_reads_inside_the_grid_witness :
  shaped noRows /\ 0 <= cursorX noRows /\ 0 <= cursorY noRows
  /\ exists ops,
       paintEvent 800 10 14 true noRows = Ok (FillRect 0 0 800 10 black :: ops).
Proof.
  assert (shaped noRows) as Hs by (repeat split; [constructor | done | done]).
  assert (0 <= cursorX noRows) as Hx by discriminate.
  assert (0 <= cursorY noRows) as Hy by discriminate.
  split; [exact Hs|]. split; [exact Hx|]. split; [exact Hy|].
  exact (paintEvent_reads_inside_the_grid 800 10 14 true noRows Hs Hx Hy).
Defined.

(** X17.  What the grid holds is what is drawn: for every cell whose
    character is not null, a successful [paintEvent] sets the pen to the
    colour of the cell and then draws its character at the pixel
    position of the cell, column times [charWidth] and one row further
    down times [charHeight] less [baseline]. *)
Theorem every_cell_is_drawn (width height baseline : Z) (cursorVisible : bool)
    (s : TerminalWidget) (ops : list PaintOp) (y x : nat) (cell : Cell) :
  shaped s ->
  paintEvent width height baseline cursorVisible s = Ok ops ->
  cellAt s y x = Some cell -> ch cell <> 0%N ->
  exists pre post,
    ops = pre ++ [SetPen (color cell);
                  DrawText (Z.of_nat x * charWidth s)
                    ((Z.of_nat y + 1) * charHeight s - baseline) (ch cell)]
              ++ post.
Proof.
  intros Hs Hpaint Hcell Hnz. unfold paintEvent in Hpaint.
  destruct (paint_cells_ok baseline s Hs) as (cells & Ecells & Hdraw).
  rewrite Ecells in Hpaint. cbn [bind] in Hpaint.
  destruct (if cursorVisible then paintCursor baseline s else Ok [])
    as [cursor|f]; cbn [bind] in Hpaint; [|discriminate].
  injection Hpaint as <-.
  destruct (Hdraw y x cell Hcell) as (pre & post & ->);
    [by apply N.eqb_neq|].
  exists (FillRect 0 0 width height black :: pre), (post ++ cursor).
  cbn [app]. by rewrite <- !app_assoc.
Qed.

Lemma every_cell_is_drawn_witness :
  shaped oneRow
  /\ paintEvent 20 18 14 false oneRow
     = Ok [FillRect 0 0 20 18 black;
           SetPen white; DrawText 0 4 72%N; SetPen white; DrawText 10 4 32%N]
  /\ cellAt oneRow 0 0 = Some (glyph white "H"%byte)
  /\ ch (glyph white "H"%byte) <> 0%N
  /\ exists pre post,
       [FillRect 0 0 20 18 black;
        SetPen white; DrawText 0 4 72%N; SetPen white; DrawText 10 4 32%N]
       = pre ++ [SetPen white; DrawText 0 4 72%N] ++ post.
Proof.
  assert (shaped oneRow) as Hs by (repeat split; [repeat constructor | done | done]).
  assert (ch (glyph white "H"%byte) <> 0%N) as Hnz by discriminate.
  split; [exact Hs|]. split; [reflexivity|]. split; [reflexivity|].
  split; [exact Hnz|].
  exact (every_cell_is_drawn 20 18 14 false oneRow _ 0 0 (glyph white "H"%byte)
           Hs eq_refl eq_refl Hnz).
Defined.

(** ** The colours of the libvterm variant *)

(** X18.  [qtColorFromVTermColor] falls back to white: a colour that is
    not an RGB colour comes out white when it is the default colour, when
    its type is none of the three, and when it is a palette colour whose
    index is not between 0 and 15. *)
Theorem colours_fall_back_to_white (RGB DEFAULT INDEX : Z) (c : LibVTerm.VTermColor) :
  LibVTerm.type c <> RGB ->
  LibVTerm.type c = DEFAULT \/ LibVTerm.type c <> INDEX
  \/ LibVTerm.index c < 0 \/ 15 < LibVTerm.index c ->
  LibVTerm.qtColorFromVTermColor RGB DEFAULT INDEX c = LibVTerm.Global white.
Proof.
  intros Hrgb Hcase. unfold LibVTerm.qtColorFromVTermColor.
  apply Z.eqb_neq in Hrgb. rewrite Hrgb.
  destruct (LibVTerm.type c =? DEFAULT) eqn:Ed; [reflexivity|].
  destruct (LibVTerm.type c =? INDEX) eqn:Ei; [|reflexivity].
  apply Z.eqb_eq in Ei. apply Z.eqb_neq in Ed.
  destruct Hcase as [Hd | [Hi | Hidx]]; [done | done |].
  assert ((LibVTerm.index c <? 0) || (15 <? LibVTerm.index c) = true) as -> by lia.
  reflexivity.
Qed.

Lemma colours_fall_back_to_white_witness :
  LibVTerm.type (LibVTerm.mkVTermColor 1 0 0 0 200) <> 0
  /\ (LibVTerm.type (LibVTerm.mkVTermColor 1 0 0 0 200) = 2
      \/ LibVTerm.type (LibVTerm.mkVTermColor 1 0 0 0 200) <> 1
      \/ LibVTerm.index (LibVTerm.mkVTermColor 1 0 0 0 200) < 0
      \/ 15 < LibVTerm.index (LibVTerm.mkVTermColor 1 0 0 0 200))
  /\ LibVTerm.qtColorFromVTermColor 0 2 1 (LibVTerm.mkVTermColor 1 0 0 0 200)
     = LibVTerm.Global white.
Proof.
  assert (LibVTerm.type (LibVTerm.mkVTermColor 1 0 0 0 200) <> 0) as H1 by discriminate.
  assert (LibVTerm.type (LibVTerm.mkVTermColor 1 0 0 0 200) = 2
          \/ LibVTerm.type (LibVTerm.mkVTermColor 1 0 0 0 200) <> 1
          \/ LibVTerm.index (LibVTerm.mkVTermColor 1 0 0 0 200) < 0
          \/ 15 < LibVTerm.index (LibVTerm.mkVTermColor 1 0 0 0 200)) as H2
    by (right; right; right; reflexivity).
  split; [exact H1|]. split; [exact H2|].
  exact (colours_fall_back_to_white 0 2 1 (LibVTerm.mkVTermColor 1 0 0 0 200) H1 H2).
Defined.

Lemma indexed_colour (RGB DEFAULT INDEX : Z) (c : LibVTerm.VTermColor) :
  LibVTerm.type c = INDEX -> INDEX <> RGB -> INDEX <> DEFAULT ->
  0 <= LibVTerm.index c <= 15 ->
  LibVTerm.qtColorFromVTermColor RGB DEFAULT INDEX c
  = nth (Z.to_nat (LibVTerm.index c)) LibVTerm.colors (LibVTerm.Global white).
Proof.
  intros Ht Hr Hd Hi. unfold LibVTerm.qtColorFromVTermColor. rewrite Ht.
  apply Z.eqb_neq in Hr, Hd. rewrite Hr, Hd, Z.eqb_refl.
  assert ((LibVTerm.index c <? 0) || (15 <? LibVTerm.index c) = false) as -> by lia.
  reflexivity.
Qed.

(** X20.  The palette has no bright colours of its own except grey:
    indices 9 to 15 give the same red, green and blue as indices 1 to 7,
    so a bright colour is drawn like the normal one. *)
Theorem bright_colours_repeat_the_normal_ones (RGB DEFAULT INDEX : Z)
    (c bright : LibVTerm.VTermColor) :
  INDEX <> RGB -> INDEX <> DEFAULT ->
  LibVTerm.type c = INDEX -> LibVTerm.type bright = INDEX ->
  1 <= LibVTerm.index c <= 7 -> LibVTerm.index bright = LibVTerm.index c + 8 ->
  LibVTerm.rgbOf (LibVTerm.qtColorFromVTermColor RGB DEFAULT INDEX bright)
  = LibVTerm.rgbOf (LibVTerm.qtColorFromVTermColor RGB DEFAULT INDEX c).
Proof.
  intros Hr Hd Ht Htb Hi Hb.
  rewrite (indexed_colour RGB DEFAULT INDEX c Ht Hr Hd) by lia.
  rewrite (indexed_colour RGB DEFAULT INDEX bright Htb Hr Hd) by lia.
  rewrite Hb.
  assert (In (LibVTerm.index c) [1; 2; 3; 4; 5; 6; 7]) as Hin by (cbn [In]; lia).
  cbn [In] in Hin.
  destruct Hin as [<- | [<- | [<- | [<- | [<- | [<- | [<- | []]]]]]]]; reflexivity.
Qed.

Lemma bright_colours_repeat_the_normal_ones_witness :
  1 <> 0 /\ 1 <> 2
  /\ 1 <= LibVTerm.index (LibVTerm.mkVTermColor 1 0 0 0 1) <= 7
  /\ LibVTerm.index (LibVTerm.mkVTermColor 1 0 0 0 9)
     = LibVTerm.index (LibVTerm.mkVTermColor 1 0 0 0 1) + 8
  /\ LibVTerm.rgbOf (LibVTerm.qtColorFromVTermColor 0 2 1 (LibVTerm.mkVTermColor 1 0 0 0 9))
     = (255, 0, 0)
  /\ LibVTerm.rgbOf (LibVTerm.qtColorFromVTermColor 0 2 1 (LibVTerm.mkVTermColor 1 0 0 0 1))
     = (255, 0, 0).
Proof.
  assert (1 <> 0) as Hr by discriminate.
  assert (1 <> 2) as Hd by discriminate.
  assert (1 <= LibVTerm.index (LibVTerm.mkVTermColor 1 0 0 0 1) <= 7) as Hi
    by (split; discriminate).
  split; [exact Hr|]. split; [exact Hd|]. split; [exact Hi|]. split; [reflexivity|].
  split; [|reflexivity].
  exact (bright_colours_repeat_the_normal_ones 0 2 1
           (LibVTerm.mkVTermColor 1 0 0 0 1) (LibVTerm.mkVTermColor 1 0 0 0 9)
           Hr Hd eq_refl eq_refl Hi eq_refl).
Defined.
